(** * warden: image trust validation and the admission wrapper

    A shallow embedding of the two Go files of the repository that carry
    behaviour:

    - [internal/validate] (the image validation service): [Validate],
      [isImageAllowed], [getRepositoryDigestHash], [parseCredentials],
      [getIndexDigestHash], [getImageDigestHash],
      [getNotaryImageDigestHash], [parseNotaryErr];
    - [internal/admission/defaulting.go]: [handleWithTimeout], [handle],
      [labelPod], [LabelForValidationResult].

    Calls that leave the process (registry, notary, Kubernetes API, the
    logger) are nodes of a free monad; a handler over a world state gives
    them answers.  Pure functions of the Go standard library that the code
    calls are written out where the proofs need their behaviour
    ([strings.HasPrefix], [strings.Contains], [strings.Split],
    [subtle.ConstantTimeCompare]) and taken as an interface otherwise
    ([name.ParseReference], [hex.DecodeString], [base64] decoding). *)

From Stdlib Require Import ZArith NArith String Ascii List Lia Permutation Bool.
From Stdlib.Strings Require Byte.
From stdpp Require Import base option gmap strings.

Import ListNotations.
Local Open Scope string_scope.

(** ** Go values *)

Module Go.

(** A [[]byte]: [None] is the nil slice, [Some l] a slice with contents
    [l] (possibly empty, which Go distinguishes from nil). *)
Definition bytes : Type := option (list Byte.byte).

#[global] Instance byte_eq_dec : EqDecision Byte.byte := Byte.byte_eq_dec.

Definition bytes_of (b : bytes) : list Byte.byte :=
  match b with
  | None => []
  | Some l => l
  end.

Definition is_nil (b : bytes) : bool :=
  match b with
  | None => true
  | Some _ => false
  end.

(** Error classes of [pkg]. *)
Inductive ErrorCode : Type :=
| ValidationFailed
| UnknownResult.

(** An [error] value.  [errors_New] and [errors_Wrap] are those of
    [github.com/pkg/errors]; [pkg_Err] is the classified error of the
    repository's [pkg] package. *)
Inductive error : Type :=
| errors_New (msg : string)
| errors_Wrap (cause : error) (msg : string)
| pkg_Err (code : ErrorCode) (cause : error).

(** Modelled from the spec: [pkg.NewValidationFailedErr] and
    [pkg.NewUnknownResultErr] are declared in the [pkg] package, which is
    not among the sources; the spec describes them as tagging an error
    as a validation failure, respectively as an unknown result. *)
Definition NewValidationFailedErr (err : error) : error := pkg_Err ValidationFailed err.
Definition NewUnknownResultErr (err : error) : error := pkg_Err UnknownResult err.

(** [err.Error()]: the message; a wrap prefixes its own text, and the
    classification carries the message of its cause. *)
Fixpoint Error (e : error) : string :=
  match e with
  | errors_New msg => msg
  | errors_Wrap cause msg => msg ++ ": " ++ Error cause
  | pkg_Err _ cause => Error cause
  end.

(** The class of an error, when it has one. *)
Definition code_of (e : error) : option ErrorCode :=
  match e with
  | pkg_Err c _ => Some c
  | _ => None
  end.

(** A Go [(T, error)] result of a call that returns either a value or
    an error. *)
Inductive result (A : Type) : Type :=
| Ok (a : A)
| Err (e : error).
Arguments Ok {A} a.
Arguments Err {A} e.

(** *** package strings *)

(** [strings.HasPrefix(s, prefix)] *)
Definition HasPrefix (s prefix : string) : bool := String.prefix prefix s.

(** [strings.Contains(s, substr)]: [substr] starts at some index of [s]. *)
Fixpoint Contains (s substr : string) : bool :=
  match s with
  | EmptyString => String.prefix substr EmptyString
  | String _ s' => String.prefix substr s || Contains s' substr
  end.

(** [strings.Split(s, sep)] for a non-empty [sep]: the pieces of [s]
    between the occurrences of [sep], scanning from the left.  [skip]
    counts the bytes of a matched separator still to be passed over and
    [cur] is the piece being read. *)
Fixpoint split_from (sep s : string) (skip : nat) (cur : string) : list string :=
  match s with
  | EmptyString => [cur]
  | String c s' =>
      match skip with
      | S k => split_from sep s' k cur
      | O =>
          if String.prefix sep s
          then cur :: split_from sep s' (String.length sep - 1) EmptyString
          else split_from sep s' 0 (cur ++ String c EmptyString)
      end
  end.

Definition Split (s sep : string) : list string := split_from sep s 0 EmptyString.

(** *** package crypto/subtle *)

(** [ConstantTimeByteEq(x, y uint8) int]:
    [int((uint32(x^y) - 1) >> 31)], the subtraction wrapping at 32 bits. *)
Definition ConstantTimeByteEq (x y : N) : Z :=
  Z.shiftr ((Z.of_N (N.lxor x y) - 1) mod 2 ^ 32) 31.

(** The loop [v |= x[i] ^ y[i]] over the common indices. *)
Fixpoint or_xor (v : N) (x y : list Byte.byte) : N :=
  match x, y with
  | a :: x', b :: y' => or_xor (N.lor v (N.lxor (Byte.to_N a) (Byte.to_N b))) x' y'
  | _, _ => v
  end.

(** [subtle.ConstantTimeCompare(x, y []byte) int] *)
Definition ConstantTimeCompare (x y : bytes) : Z :=
  if negb (Nat.eqb (List.length (bytes_of x)) (List.length (bytes_of y))) then 0%Z
  else ConstantTimeByteEq (or_xor 0%N (bytes_of x) (bytes_of y)) 0%N.

(** *** Vocabulary of the statements *)

(** One list of bytes is the other with a single byte changed. *)
Definition single_flip (l l' : list Byte.byte) : Prop :=
  exists before a b after,
    a <> b /\ l = (before ++ a :: after)%list /\ l' = (before ++ b :: after)%list.

(** The separator made of the one byte [c]. *)
Definition sep1 (c : ascii) : string := String c EmptyString.

(** [strings.Join(pieces, sep)]: the pieces with [sep] between them. *)
Fixpoint join (sep : string) (pieces : list string) : string :=
  match pieces with
  | [] => ""
  | [piece] => piece
  | piece :: rest => piece ++ sep ++ join sep rest
  end.

End Go.

(** ** Programs over external calls *)

Module Eff.
Section WithCalls.
Context {Call : Type} {Answer : Call -> Type}.

(** A program either returns or performs a call and continues with its
    answer. *)
Inductive Prog (R : Type) : Type :=
| Ret (r : R)
| Do (c : Call) (k : Answer c -> Prog R).
Arguments Ret {R} r.
Arguments Do {R} c k.

Fixpoint bind {A B : Type} (p : Prog A) (f : A -> Prog B) : Prog B :=
  match p with
  | Ret a => f a
  | Do c k => Do c (fun x => bind (k x) f)
  end.

Definition call (c : Call) : Prog (Answer c) := Do c Ret.

(** A call together with the answer it received. *)
Definition Event : Type := sigT Answer.

(** The outside world: a state and an answer to every call. *)
Section WithWorld.
Context {W : Type} (answer : forall c : Call, W -> Answer c * W).

Fixpoint run {R : Type} (p : Prog R) (w : W) : R * W :=
  match p with
  | Ret r => (r, w)
  | Do c k => let '(x, w') := answer c w in run (k x) w'
  end.

(** The calls a run performs, in order, each with the answer it got. *)
Fixpoint trace {R : Type} (p : Prog R) (w : W) : list Event :=
  match p with
  | Ret _ => []
  | Do c k => let '(x, w') := answer c w in existT c x :: trace (k x) w'
  end.
End WithWorld.
End WithCalls.
Arguments Prog {Call} Answer R.
Arguments Ret {Call Answer R} r.
Arguments Do {Call Answer R} c k.
Arguments Event {Call} Answer.
End Eff.

(** Programs use stdpp's monad notations [x ← p; q] and [p ;; q]. *)
#[global] Instance prog_ret {Call} {Answer : Call -> Type} : MRet (Eff.Prog Answer) :=
  fun _ r => Eff.Ret r.
#[global] Instance prog_bind {Call} {Answer : Call -> Type} : MBind (Eff.Prog Answer) :=
  fun _ _ f p => Eff.bind p f.

(** ** The image validation service (package validate) *)

Module Validate.
Import Go.

(** *** Types of the libraries the service calls *)

(** [name.Repository] and [name.Reference] of go-containerregistry, with
    the methods the service uses. *)
Record Repository : Type := { RegistryStr : string; Name : string }.
Record Reference : Type := { Context : Repository; Identifier : string }.

(** [v1.Hash] *)
Record Hash : Type := { Algorithm : string; Hex : string }.

(** [types.MediaType] is a string type; [IsIndex] and [IsImage] compare
    it with the index and the manifest media types. *)
Definition IsIndex (mediaType : string) : bool :=
  String.eqb mediaType "application/vnd.oci.image.index.v1+json"
  || String.eqb mediaType "application/vnd.docker.distribution.manifest.list.v2+json".

Definition IsImage (mediaType : string) : bool :=
  String.eqb mediaType "application/vnd.docker.distribution.manifest.v2+json"
  || String.eqb mediaType "application/vnd.oci.image.manifest.v1+json".

Record Descriptor : Type := { MediaType : string }.

(** [v1.ImageIndex] and [v1.Image]: the results of the methods called on
    the fetched object. *)
Record ImageIndex : Type := { Index_Digest : result Hash }.
Record Manifest : Type := { Config_Digest : Hash }.
Record Image : Type := { Image_Manifest : result Manifest; Image_Digest : result Hash }.

(** [authn.Authenticator]: the two implementations the service builds. *)
Inductive Authenticator : Type :=
| Basic (Username Password : string)
| Bearer (Token : string).

(** [remote.Option] *)
Inductive Option : Type :=
| WithAuth (auth : Authenticator).

(** [cliType.AuthConfig], the fields read by [parseCredentials]. *)
Record AuthConfig : Type := {
  Username : string;
  Password : string;
  Auth : string;
  RegistryToken : string
}.

(** [NotaryConfig] is declared in a file of the package that is not among
    the sources; the service only passes it on to the client factory. *)
Record NotaryConfig : Type := { Url : string }.

(** The notary client handed out by the factory, and the target it
    returns ([Hashes] is a [map[string][]byte]). *)
Definition RepoClient : Type := nat.
Record Target : Type := { Hashes : gmap string bytes }.

(** Pure library functions taken as an interface. *)
Class Library : Type := {
  (** [name.ParseReference(image, name.StrictValidation)] *)
  ParseReference : string -> result Reference;
  (** [hex.DecodeString] *)
  hex_DecodeString : string -> result (list Byte.byte);
  (** [base64.StdEncoding.DecodeString], the bytes read as a string *)
  base64_DecodeString : string -> result string
}.

(** *** External calls *)

Inductive Call : Type :=
| LogInfo (msg : string)
| LogWarn (msg : string)
| LogStartTime (msg : string)
| LogEndTime (msg : string)
| NewRepoClient (repoName : string) (cfg : NotaryConfig)
| GetTargetByName (c : RepoClient) (name : string)
| remote_Get (ref : Reference) (options : list Option)
| remote_Index (ref : Reference) (options : list Option)
| remote_Image (ref : Reference) (options : list Option).

#[global] Instance Repository_eq_dec : EqDecision Repository.
Proof. solve_decision. Defined.
#[global] Instance Reference_eq_dec : EqDecision Reference.
Proof. solve_decision. Defined.
#[global] Instance Authenticator_eq_dec : EqDecision Authenticator.
Proof. solve_decision. Defined.
#[global] Instance Option_eq_dec : EqDecision Option.
Proof. solve_decision. Defined.
#[global] Instance NotaryConfig_eq_dec : EqDecision NotaryConfig.
Proof. solve_decision. Defined.
#[global] Instance Call_eq_dec : EqDecision Call.
Proof. solve_decision. Defined.

Definition Answer (c : Call) : Type :=
  match c with
  | LogInfo _ | LogWarn _ | LogStartTime _ | LogEndTime _ => unit
  | NewRepoClient _ _ => result RepoClient
  | GetTargetByName _ _ => result Target
  | remote_Get _ _ => result Descriptor
  | remote_Index _ _ => result ImageIndex
  | remote_Image _ _ => result Image
  end.

(** The calls that reach the trust authority or the registry. *)
Definition is_network (c : Call) : bool :=
  match c with
  | LogInfo _ | LogWarn _ | LogStartTime _ | LogEndTime _ => false
  | _ => true
  end.

Definition M : Type -> Type := Eff.Prog Answer.
Definition call (c : Call) : M (Answer c) := Eff.call c.

(** *** The service *)

Record ServiceConfig : Type := {
  NotaryConfig_ : NotaryConfig;
  AllowedRegistries : list string
}.

Record notaryService : Type := { ServiceConfig_ : ServiceConfig }.

Fixpoint isAllowedIn (allowedRegistries : list string) (imgRepo : string) : bool :=
  match allowedRegistries with
  | [] => false
  | allowed :: rest =>
      if HasPrefix imgRepo allowed then true else isAllowedIn rest imgRepo
  end.

Definition isImageAllowed (s : notaryService) (imgRepo : string) : bool :=
  isAllowedIn (AllowedRegistries (ServiceConfig_ s)) imgRepo.

Definition parseNotaryErr (err : error) : error :=
  let errMsg := Error err in
  if Contains errMsg "does not have trust data for" then NewValidationFailedErr err
  else if Contains errMsg "No valid trust data for" then NewValidationFailedErr err
  else NewUnknownResultErr err.

(** The key left in [key] by [for i := range target.Hashes { key = i }]:
    the last key visited, the empty string for an empty map. *)
Definition range_last_key (hashes : gmap string bytes) : string :=
  foldl (fun _ kv => kv.1) "" (map_to_list hashes).

(** The end of [getNotaryImageDigestHash], once the lookup has returned
    [target]: the checks on the number of hashes and the read of the one
    hash (a key that is absent reads as the nil slice). *)
Definition targetDigest (target : Target) : result bytes :=
  if Nat.eqb (size (Hashes target)) 0 then
    Err (NewValidationFailedErr (errors_New "image hash is missing"))
  else if Nat.ltb 1 (size (Hashes target)) then
    Err (NewValidationFailedErr (errors_New "more than one hash for image"))
  else
    let key := range_last_key (Hashes target) in
    Ok (default None (Hashes target !! key)).

Definition getNotaryImageDigestHash (s : notaryService) (ref : Reference) : M (result bytes) :=
  call (LogStartTime "request to notary (NewRepoClient)");;
  c ← call (NewRepoClient (Name (Context ref)) (NotaryConfig_ (ServiceConfig_ s)));
  call (LogEndTime "request to notary (NewRepoClient)");;
  match c with
  | Err err => mret (Err (NewUnknownResultErr err))
  | Ok c =>
      call (LogStartTime "request to notary (GetTargetByName)");;
      target ← call (GetTargetByName c (Identifier ref));
      call (LogEndTime "request to notary (GetTargetByName)");;
      match target with
      | Err err => mret (Err (parseNotaryErr err))
      | Ok target => mret (targetDigest target)
      end
  end.

Definition loggedGetNotaryImageDigestHash (s : notaryService) (ref : Reference) : M (result bytes) :=
  call (LogStartTime "request to notary");;
  r ← getNotaryImageDigestHash s ref;
  call (LogEndTime "request to notary");;
  mret r.

Section WithLibrary.
Context `{Library}.

Definition parseCredentials (credentials : AuthConfig) : result Authenticator :=
  if negb (String.eqb (Username credentials) "") && negb (String.eqb (Password credentials) "") then
    Ok (Basic (Username credentials) (Password credentials))
  else if negb (String.eqb (RegistryToken credentials) "") then
    Ok (Bearer (RegistryToken credentials))
  else if negb (String.eqb (Auth credentials) "") then
    match base64_DecodeString (Auth credentials) with
    | Err err => Err (NewValidationFailedErr (errors_Wrap err "cannot decode base64 encoded auth"))
    | Ok decodedCredentials =>
        match Split decodedCredentials ":" with
        | [user; password] => Ok (Basic user password)
        | _ => Err (NewValidationFailedErr
                      (errors_New "invalid auth format, expected username:password form"))
        end
    end
  else Err (NewValidationFailedErr (errors_New "unknown auth secret format")).

Definition getIndexDigestHash (ref : Reference) (remoteOptions : list Option) : M (result bytes) :=
  i ← call (remote_Index ref remoteOptions);
  match i with
  | Err err => mret (Err (NewUnknownResultErr (errors_Wrap err "get image")))
  | Ok i =>
      match Index_Digest i with
      | Err err => mret (Err (NewUnknownResultErr (errors_Wrap err "image digest")))
      | Ok digest =>
          match hex_DecodeString (Hex digest) with
          | Err err => mret (Err (NewUnknownResultErr (errors_Wrap err "checksum error: %w")))
          | Ok digestBytes => mret (Ok (Some digestBytes))
          end
      end
  end.

Definition getImageDigestHash (ref : Reference) (remoteOptions : list Option)
  : M (result (bytes * bytes)) :=
  i ← call (remote_Image ref remoteOptions);
  match i with
  | Err err => mret (Err (NewUnknownResultErr (errors_Wrap err "get image")))
  | Ok i =>
      match Image_Manifest i with
      | Err err => mret (Err (NewUnknownResultErr (errors_Wrap err "image manifest")))
      | Ok m =>
          match hex_DecodeString (Hex (Config_Digest m)) with
          | Err err =>
              mret (Err (NewUnknownResultErr (errors_Wrap err "manifest checksum error: %w")))
          | Ok manifestBytes =>
              match Image_Digest i with
              | Err err => mret (Err (NewUnknownResultErr (errors_Wrap err "image digest")))
              | Ok digest =>
                  match hex_DecodeString (Hex digest) with
                  | Err err =>
                      mret (Err (NewUnknownResultErr (errors_Wrap err "checksum error: %w")))
                  | Ok digestBytes => mret (Ok (Some digestBytes, Some manifestBytes))
                  end
              end
          end
      end
  end.

(** The second half of [getRepositoryDigestHash]: the branch on the
    descriptor's media type. *)
Definition digestByMediaType (ref : Reference) (remoteOptions : list Option)
    (descriptor : Descriptor) : M (result (bytes * bytes)) :=
  if IsIndex (MediaType descriptor) then
    digest ← getIndexDigestHash ref remoteOptions;
    match digest with
    | Err err => mret (Err err)
    | Ok digest => mret (Ok (digest, None))
    end
  else if IsImage (MediaType descriptor) then
    r ← getImageDigestHash ref remoteOptions;
    match r with
    | Err err => mret (Err err)
    | Ok (digest, manifest) => mret (Ok (digest, manifest))
    end
  else mret (Err (NewValidationFailedErr (errors_New "not an image or image list"))).

Definition getRepositoryDigestHash (ref : Reference)
    (imagePullCredentials : gmap string AuthConfig) : M (result (bytes * bytes)) :=
  let remoteOptions : list Option := [] in
  let credentials := imagePullCredentials !! RegistryStr (Context ref) in
  descriptor ← call (remote_Get ref []);
  match descriptor with
  | Ok descriptor => digestByMediaType ref remoteOptions descriptor
  | Err err =>
      match credentials with
      | None =>
          mret (Err (NewUnknownResultErr (errors_Wrap err "get image descriptor anonymously")))
      | Some credentials =>
          match parseCredentials credentials with
          | Err err => mret (Err err)
          | Ok credentials =>
              (* the authenticator is never nil here, so it is always appended *)
              let remoteOptions := (remoteOptions ++ [WithAuth credentials])%list in
              descriptor ← call (remote_Get ref remoteOptions);
              match descriptor with
              | Err err =>
                  mret (Err (NewUnknownResultErr (errors_Wrap err "get image descriptor")))
              | Ok descriptor => digestByMediaType ref remoteOptions descriptor
              end
          end
      end
  end.

Definition loggedGetRepositoryDigestHash (ref : Reference)
    (imagePullCredentials : gmap string AuthConfig) : M (result (bytes * bytes)) :=
  call (LogStartTime "request to image registry");;
  r ← getRepositoryDigestHash ref imagePullCredentials;
  call (LogEndTime "request to image registry");;
  mret r.

(** [Validate]: [None] is the nil error. *)
Definition Validate (s : notaryService) (image : string)
    (imagePullCredentials : gmap string AuthConfig) : M (option error) :=
  if isImageAllowed s image then
    call (LogInfo "image validation skipped, because it's allowed");;
    mret None
  else
    match ParseReference image with
    | Err err =>
        mret (Some (NewValidationFailedErr (errors_Wrap err "image name could not be parsed")))
    | Ok ref =>
        expected ← loggedGetNotaryImageDigestHash s ref;
        match expected with
        | Err err => mret (Some err)
        | Ok expectedShaBytes =>
            r ← loggedGetRepositoryDigestHash ref imagePullCredentials;
            match r with
            | Err err => mret (Some err)
            | Ok (shaImageBytes, shaManifestBytes) =>
                if Z.eqb (ConstantTimeCompare shaImageBytes expectedShaBytes) 1 then
                  mret None
                else if negb (is_nil shaManifestBytes)
                        && Z.eqb (ConstantTimeCompare shaManifestBytes expectedShaBytes) 1 then
                  call (LogWarn "deprecated: manifest hash was used for verification");;
                  mret None
                else
                  mret (Some (NewValidationFailedErr (errors_New "unexpected image hash value")))
            end
        end
    end.
End WithLibrary.

(** [NewImageValidator]: the service holds a copy of the two fields of the
    configuration (the client factory is reached through the calls). *)
Definition NewImageValidator (sc : ServiceConfig) : notaryService :=
  {| ServiceConfig_ := {| NotaryConfig_ := NotaryConfig_ sc;
                          AllowedRegistries := AllowedRegistries sc |} |}.

End Validate.

(** A second interpreter for programs whose calls take time: the world may
    answer a call after some nanoseconds, or never. *)
Module Timed.
Section WithClock.
Context {Call : Type} {Answer : Call -> Type} {W : Type}.
Context (answer : forall c : Call, W -> option (Answer c * W * Z)).

(** The result of a program started at [now] and the instant at which
    it is available; [None] when some call never returns.  Besides the
    time its calls take, the program takes [own] for its own steps and for
    being scheduled. *)
Fixpoint finish {R : Type} (own : Z) (p : Eff.Prog Answer R) (w : W) (now : Z)
  : option (R * Z) :=
  match p with
  | Eff.Ret r => Some (r, now + own)%Z
  | Eff.Do c k =>
      match answer c w with
      | None => None
      | Some (x, w', d) => finish own (k x) w' (now + d)%Z
      end
  end.
End WithClock.
End Timed.

(** ** The defaulting webhook (package admission) *)

Module Admission.
Import Go.

Definition PodType : string := "Pod".

Definition StatusOK : Z := 200.
Definition StatusBadRequest : Z := 400.
Definition StatusRequestTimeout : Z := 408.
Definition StatusInternalServerError : Z := 500.

(** [admission.Request], the fields read by the webhook:
    [req.UID], [req.Kind.Kind] and [req.Object.Raw]. *)
Record Request : Type := { UID : string; Kind : string; Object_Raw : list Byte.byte }.

(** [corev1.Pod]: name, namespace, labels ([None] is the nil map) and the
    rest of the object, which the webhook never reads. *)
Record Pod : Type := {
  Pod_Name : string;
  Pod_Namespace : string;
  Labels : option (gmap string string);
  Pod_Rest : string
}.

Record Namespace : Type := { Namespace_Name : string; Namespace_Labels : gmap string string }.

(** Modelled from the spec: [validate.ValidationResult] is declared in a
    file of package validate that is not among the sources.  The spec
    lists the four results; the type is open in Go, so a value outside
    the four is kept as [Unrecognized]. *)
Inductive ValidationResult : Type :=
| NoAction
| Invalid
| Valid
| ServiceUnavailable
| Unrecognized (raw : string).

(** One operation of a JSON patch. *)
Record JsonPatchOperation : Type := { Operation : string; Path : string; Value : string }.

(** [admission.Response]: the verdict, the status code and message of
    its result, and the patch. *)
Record Response : Type := {
  Allowed : bool;
  Code : Z;
  Message : string;
  Patches : list JsonPatchOperation;
  PatchType : option string
}.

(** The zero [Response{}] of [var resp admission.Response]. *)
Definition Response_zero : Response :=
  {| Allowed := false; Code := 0; Message := ""; Patches := []; PatchType := None |}.

(** [admission.Errored(code, err)] *)
Definition admission_Errored (code : Z) (err : error) : Response :=
  {| Allowed := false; Code := code; Message := Error err; Patches := []; PatchType := None |}.

(** [admission.Allowed(message)] *)
Definition admission_Allowed (message : string) : Response :=
  {| Allowed := true; Code := StatusOK; Message := message; Patches := []; PatchType := None |}.

(** Pure library functions taken as an interface. *)
Class Library : Type := {
  (** [decoder.Decode(req, pod)] *)
  Decode : Request -> result Pod;
  (** [json.Marshal] on a pod *)
  json_Marshal : Pod -> result (list Byte.byte);
  (** [jsonpatch.CreatePatch(original, current)] *)
  CreatePatch : list Byte.byte -> list Byte.byte -> result (list JsonPatchOperation);
  (** [time.Duration.String()] of a duration in nanoseconds *)
  Duration_String : Z -> string
}.

(** The label key and values of the repository's [pkg] package, which is
    not among the sources. *)
Class Constants : Type := {
  PodValidationLabel : string;
  ValidationStatusSuccess : string;
  ValidationStatusReject : string;
  ValidationStatusPending : string
}.

(** An argument of a formatted log line. *)
Inductive LogArg : Type :=
| ArgString (s : string)
| ArgResult (r : ValidationResult).

Inductive Call : Type :=
| LogInfof (format : string) (args : list LogArg)
| client_Get (name : string)
| ValidatePod (pod : Pod) (ns : Namespace).

#[global] Instance ValidationResult_eq_dec : EqDecision ValidationResult.
Proof. solve_decision. Defined.
#[global] Instance Pod_eq_dec : EqDecision Pod.
Proof. solve_decision. Defined.
#[global] Instance Namespace_eq_dec : EqDecision Namespace.
Proof. solve_decision. Defined.
#[global] Instance LogArg_eq_dec : EqDecision LogArg.
Proof. solve_decision. Defined.
#[global] Instance Call_eq_dec : EqDecision Call.
Proof. solve_decision. Defined.

Definition Answer (c : Call) : Type :=
  match c with
  | LogInfof _ _ => unit
  | client_Get _ => result Namespace
  | ValidatePod _ _ => result ValidationResult
  end.

Definition M : Type -> Type := Eff.Prog Answer.
Definition call (c : Call) : M (Answer c) := Eff.call c.

(** [DefaultingWebHook]: the timeout in nanoseconds; the validator, the
    client and the decoder are reached through calls and [Library]. *)
Record DefaultingWebHook : Type := { timeout : Z }.

Section WithLibrary.
Context `{Library} `{Constants}.

(** [admission.PatchResponseFromRaw(original, current)] *)
Definition PatchResponseFromRaw (original current : list Byte.byte) : Response :=
  match CreatePatch original current with
  | Err err => admission_Errored StatusInternalServerError err
  | Ok patches =>
      {| Allowed := true; Code := 0; Message := "";
         Patches := patches;
         PatchType := match patches with
                      | [] => None
                      | _ => Some "JSONPatch"
                      end |}
  end.

Definition LabelForValidationResult (result : ValidationResult) : string :=
  match result with
  | NoAction => ""
  | Invalid => ValidationStatusReject
  | Valid => ValidationStatusSuccess
  | ServiceUnavailable => ValidationStatusPending
  | Unrecognized _ => ValidationStatusPending
  end.

Definition labelPod (result : ValidationResult) (pod : Pod) : M Pod :=
  let labelToApply := LabelForValidationResult result in
  call (LogInfof "pod was labeled: `%s`" [ArgString labelToApply]);;
  if String.eqb labelToApply "" then mret pod
  else
    let labeledPod := pod (* DeepCopy *) in
    let labels := match Labels labeledPod with
                  | None => ∅
                  | Some labels => labels
                  end in
    mret {| Pod_Name := Pod_Name labeledPod;
            Pod_Namespace := Pod_Namespace labeledPod;
            Labels := Some (<[PodValidationLabel := labelToApply]> labels);
            Pod_Rest := Pod_Rest labeledPod |}.

Definition handle (w : DefaultingWebHook) (req : Request) : M Response :=
  if negb (String.eqb (Kind req) PodType) then
    mret (admission_Errored StatusBadRequest
            (errors_New ("Invalid request kind:" ++ Kind req ++ ", expected:" ++ PodType)))
  else
    match Decode req with
    | Err err => mret (admission_Errored StatusInternalServerError err)
    | Ok pod =>
        ns ← call (client_Get (Pod_Namespace pod));
        match ns with
        | Err err => mret (admission_Errored StatusInternalServerError err)
        | Ok ns =>
            r ← call (ValidatePod pod ns);
            match r with
            | Err err => mret (admission_Errored StatusInternalServerError err)
            | Ok result =>
                match result with
                | NoAction => mret (admission_Allowed "validation is not enabled for pod")
                | _ =>
                    labeledPod ← labelPod result pod;
                    match json_Marshal labeledPod with
                    | Err err => mret (admission_Errored StatusInternalServerError err)
                    | Ok fBytes =>
                        call (LogInfof "pod was validated: %s, %s, %s"
                                [ArgResult result; ArgString (Pod_Name pod);
                                 ArgString (Pod_Namespace pod)]);;
                        mret (PatchResponseFromRaw (Object_Raw req) fBytes)
                    end
                end
            end
        end
    end.

(** *** The timeout layer *)

(** The two cases of the [select]. *)
Inductive Signal : Type :=
| case_done
| case_ctxDone.

(** [context.DeadlineExceeded] and [context.Canceled] *)
Definition DeadlineExceeded : error := errors_New "context deadline exceeded".
Definition Canceled : error := errors_New "context canceled".

(** The context [ctx] the caller passes in: never done, or done at an
    instant (cancelled, or past a deadline of its own) with the error its
    [Err()] then returns. *)
Inductive Parent : Type :=
| parent_open
| parent_done (instant : Z) (err : error).

(** What the runtime decides in one request: the case the [select] takes
    when both are ready, which cancellation reaches the derived context
    first when the caller's context and the timer are done at the same
    instant, and the time the goroutine takes for its own steps. *)
Record Runtime : Type := { tie : Signal; parent_first : bool; own : Z }.

(** The instant at which [ctxTimeout], made at instant 0 by
    [context.WithTimeout(ctx, timeout)], is done: at its deadline, or
    when [ctx] is done if that is earlier. *)
Definition ctx_done_at (timeout : Z) (parent : Parent) : Z :=
  match parent with
  | parent_open => timeout
  | parent_done instant _ => Z.min timeout instant
  end.

(** The case a [select] over [done] and [ctxTimeout.Done()] takes.  The
    goroutine sends on [done] at instant [finished] ([None]: never);
    the context is done at instant [deadline].  The [select] blocks
    until one case is ready; when both become ready at once, the
    runtime takes either, here [tie]. *)
Definition select (deadline : Z) (finished : option Z) (tie : Signal) : Signal :=
  match finished with
  | None => case_ctxDone
  | Some t =>
      if Z.ltb t deadline then case_done
      else if Z.ltb deadline t then case_ctxDone
      else tie
  end.

(** [ctxTimeout.Err()]: nil until [Done] is closed; then the error of the
    caller's context if that was done before the deadline, and
    [context.DeadlineExceeded] if the deadline came before. *)
Definition ctxTimeout_Err (fired : Signal) (timeout : Z) (parent : Parent)
    (parent_first : bool) : option error :=
  match fired with
  | case_done => None
  | case_ctxDone =>
      Some match parent with
           | parent_open => DeadlineExceeded
           | parent_done instant err =>
               if Z.ltb instant timeout then err
               else if Z.ltb timeout instant then DeadlineExceeded
               else if parent_first then err else DeadlineExceeded
           end
  end.

Section WithWorld.
Context {W : Type} (answer : forall c : Call, W -> option (Answer c * W * Z)).

(** [handleWithTimeout], entered at instant 0 in world [world] with the
    caller's context [parent]; the response and the line logged by this
    layer, if any.  The [select] is entered at instant 0, so what was
    ready before counts as ready at 0. *)
Definition handleWithTimeout (w : DefaultingWebHook) (req : Request)
    (world : W) (parent : Parent) (rt : Runtime) : Response * list Call :=
  let inner := Timed.finish answer (own rt) (handle w req) world 0 in
  let fired := select (Z.max 0 (ctx_done_at (timeout w) parent))
                 (Z.max 0 <$> (snd <$> inner)) (tie rt) in
  (* resp as the goroutine has left it when the select returns *)
  let resp := match fired, inner with
              | case_done, Some (r, _) => r
              | _, _ => Response_zero
              end in
  match fired with
  | case_done => (resp, [])
  | case_ctxDone =>
      match ctxTimeout_Err fired (timeout w) parent (parent_first rt) with
      | Some err =>
          (admission_Errored StatusRequestTimeout
             (errors_Wrap err ("request exceeded desired timeout: "
                               ++ Duration_String (timeout w))),
           [LogInfof "request exceeded desired timeout: %s"
              [ArgString (Duration_String (timeout w))]])
      | None => (resp, [])
      end
  end.

(** A line logged by the layers around the timeout layer, or a line of
    the timeout layer itself. *)
Inductive LayerLog : Type :=
| LogDebug (msg : string)
| LogEndTime (msg : string)
| Inner (c : Call).

(** [handleWithTimeMeasure]: a line at the start, and by [defer] a line
    with the elapsed time when the timeout layer has returned. *)
Definition handleWithTimeMeasure (w : DefaultingWebHook) (req : Request)
    (world : W) (parent : Parent) (rt : Runtime) : Response * list LayerLog :=
  let '(resp, logged) := handleWithTimeout w req world parent rt in
  (resp, ([LogDebug "request handling started"] ++ map Inner logged
          ++ [LogEndTime "request handling finished"])%list).

(** [handleWithLogger]: the logger gets the request identifier. *)
Definition handleWithLogger (w : DefaultingWebHook) (req : Request)
    (world : W) (parent : Parent) (rt : Runtime) : Response * list LayerLog :=
  let resp := handleWithTimeMeasure w req world parent rt in
  resp.

(** [Handle], the entry point of the webhook. *)
Definition Handle (w : DefaultingWebHook) (req : Request)
    (world : W) (parent : Parent) (rt : Runtime) : Response * list LayerLog :=
  handleWithLogger w req world parent rt.
End WithWorld.
End WithLibrary.

(** [NewDefaultingWebhook], the field the model keeps. *)
Definition NewDefaultingWebhook (timeout : Z) : DefaultingWebHook :=
  {| timeout := timeout |}.

End Admission.

(** ** What a trace shows *)

Module Observe.
Import Go Validate.

(** The calls of a trace, without their answers. *)
Definition calls_of (t : list (Eff.Event Answer)) : list Call := map (@projT1 _ _) t.

(** The remote options a call to the registry carries. *)
Definition options_of (c : Call) : option (list Option) :=
  match c with
  | remote_Get _ options | remote_Index _ options | remote_Image _ options => Some options
  | _ => None
  end.

(** The duration logs left open by [calls], innermost first, starting
    from those in [open]; [None] when a log is closed that is not the
    innermost open one. *)
Fixpoint timers (open : list string) (calls : list Call) : option (list string) :=
  match calls with
  | [] => Some open
  | LogStartTime msg :: rest => timers (msg :: open) rest
  | LogEndTime msg :: rest =>
      match open with
      | msg' :: open' => if String.eqb msg msg' then timers open' rest else None
      | [] => None
      end
  | _ :: rest => timers open rest
  end.

(** What follows a successful descriptor fetch with [options]: nothing,
    one index fetch or one image fetch, with the same options. *)
Definition fetches (ref : Reference) (options : list Option) (calls : list Call) : Prop :=
  calls = [] \/ calls = [remote_Index ref options] \/ calls = [remote_Image ref options].

(** The line [Validate] itself logs once both digests are there. *)
Definition verdict_log (expected shaImage shaManifest : bytes) : list Call :=
  if bool_decide (bytes_of shaImage = bytes_of expected) then []
  else if negb (is_nil shaManifest) && bool_decide (bytes_of shaManifest = bytes_of expected)
       then [LogWarn "deprecated: manifest hash was used for verification"]
       else [].

End Observe.

(** ** Timed worlds without their clock *)

Module Untimed.
Import Go Admission.

(** The answer taken for a call that never returns; a run that ends does
    not meet it. *)
Definition no_answer (c : Call) : Answer c :=
  match c return Answer c with
  | LogInfof _ _ => tt
  | client_Get _ => Err (errors_New "no answer")
  | ValidatePod _ _ => Err (errors_New "no answer")
  end.

(** A timed world with the durations dropped. *)
Definition untimed {W : Type} (answer : forall c : Call, W -> option (Answer c * W * Z))
    (c : Call) (w : W) : Answer c * W :=
  match answer c w with
  | Some (x, w', _) => (x, w')
  | None => (no_answer c, w)
  end.

End Untimed.

(** ** Concrete libraries and worlds for the examples *)

Module Samples.
Import Go.

(** *** Decoders *)

Definition hex_value (c : ascii) : option N :=
  let n := N_of_ascii c in
  if (48 <=? n)%N && (n <=? 57)%N then Some (n - 48)%N
  else if (97 <=? n)%N && (n <=? 102)%N then Some (n - 87)%N
  else if (65 <=? n)%N && (n <=? 70)%N then Some (n - 55)%N
  else None.

(** Hexadecimal decoding: two digits a byte. *)
Fixpoint hex_decode (s : string) : option (list Byte.byte) :=
  match s with
  | EmptyString => Some []
  | String hi (String lo rest) =>
      match hex_value hi, hex_value lo, hex_decode rest with
      | Some h, Some l, Some bs =>
          match Byte.of_N (16 * h + l) with
          | Some b => Some (b :: bs)
          | None => None
          end
      | _, _, _ => None
      end
  | String _ EmptyString => None
  end.

Definition base64_value (c : ascii) : option N :=
  let n := N_of_ascii c in
  if (65 <=? n)%N && (n <=? 90)%N then Some (n - 65)%N
  else if (97 <=? n)%N && (n <=? 122)%N then Some (n - 71)%N
  else if (48 <=? n)%N && (n <=? 57)%N then Some (n + 4)%N
  else if (n =? 43)%N then Some 62%N
  else if (n =? 47)%N then Some 63%N
  else None.

Definition pad : ascii := "="%char.

Definition chars (ns : list N) : string :=
  string_of_list_ascii (map ascii_of_N ns).

(** Base64 decoding, standard alphabet with padding: four characters
    give three bytes, and the last group may end in one or two pads. *)
Fixpoint base64_decode (s : string) : option string :=
  match s with
  | EmptyString => Some EmptyString
  | String a (String b (String c (String d rest))) =>
      match base64_value a, base64_value b with
      | Some va, Some vb =>
          match base64_value c, base64_value d, rest with
          | Some vc, Some vd, _ =>
              let n := (va * 262144 + vb * 4096 + vc * 64 + vd)%N in
              match base64_decode rest with
              | Some tail =>
                  Some (chars [n / 65536; (n / 256) mod 256; n mod 256]%N ++ tail)
              | None => None
              end
          | Some vc, None, EmptyString =>
              if Ascii.eqb d pad then
                let n := (va * 262144 + vb * 4096 + vc * 64)%N in
                Some (chars [n / 65536; (n / 256) mod 256]%N)
              else None
          | None, None, EmptyString =>
              if Ascii.eqb c pad && Ascii.eqb d pad then
                let n := (va * 262144 + vb * 4096)%N in
                Some (chars [n / 65536]%N)
              else None
          | _, _, _ => None
          end
      | _, _ => None
      end
  | _ => None
  end.

Definition lift {A : Type} (what : string) (o : option A) : result A :=
  match o with
  | Some a => Ok a
  | None => Err (errors_New what)
  end.

(** A reference parser for the examples: [registry/repository:tag]
    with exactly one slash and one colon. *)
Definition parse_reference (image : string) : result Validate.Reference :=
  match Split image "/" with
  | [registry; rest] =>
      match Split rest ":" with
      | [repository; tag] =>
          Ok {| Validate.Context :=
                  {| Validate.RegistryStr := registry;
                     Validate.Name := registry ++ "/" ++ repository |};
                Validate.Identifier := tag |}
      | _ => Err (errors_New "could not parse reference")
      end
  | _ => Err (errors_New "could not parse reference")
  end.

Definition library : Validate.Library := {|
  Validate.ParseReference := parse_reference;
  Validate.hex_DecodeString := fun s => lift "encoding/hex: invalid input" (hex_decode s);
  Validate.base64_DecodeString := fun s => lift "illegal base64 data" (base64_decode s)
|}.

(** *** A scripted registry and trust authority *)

Record Script : Type := {
  client : result Validate.RepoClient;
  target : result Validate.Target;
  anonymous : result Validate.Descriptor;
  authenticated : result Validate.Descriptor;
  index : result Validate.ImageIndex;
  image : result Validate.Image
}.

Definition answer (c : Validate.Call) (w : Script) : Validate.Answer c * Script :=
  match c return Validate.Answer c * Script with
  | Validate.LogInfo _ | Validate.LogWarn _
  | Validate.LogStartTime _ | Validate.LogEndTime _ => (tt, w)
  | Validate.NewRepoClient _ _ => (client w, w)
  | Validate.GetTargetByName _ _ => (target w, w)
  | Validate.remote_Get _ [] => (anonymous w, w)
  | Validate.remote_Get _ (_ :: _) => (authenticated w, w)
  | Validate.remote_Index _ _ => (index w, w)
  | Validate.remote_Image _ _ => (image w, w)
  end.

Definition manifestV2 : string := "application/vnd.docker.distribution.manifest.v2+json".
Definition sha (hex : string) : Validate.Hash :=
  {| Validate.Algorithm := "sha256"; Validate.Hex := hex |}.

(** A single image with digest [digest] and config digest [config],
    signed in the trust authority with [signed]. *)
Definition registry (digest config : string) (signed : list Byte.byte) : Script := {|
  client := Ok 0;
  target := Ok {| Validate.Hashes := {[ "sha256" := Some signed ]} |};
  anonymous := Ok {| Validate.MediaType := manifestV2 |};
  authenticated := Ok {| Validate.MediaType := manifestV2 |};
  index := Err (errors_New "not an index");
  image := Ok {| Validate.Image_Manifest := Ok {| Validate.Config_Digest := sha config |};
                 Validate.Image_Digest := Ok (sha digest) |}
|}.

(** The same registry behind a trust authority that answers [made] to
    the client factory and [looked] to the lookup. *)
Definition notary (made : result Validate.RepoClient) (looked : result Validate.Target)
  : Script := {|
  client := made;
  target := looked;
  anonymous := Ok {| Validate.MediaType := manifestV2 |};
  authenticated := Ok {| Validate.MediaType := manifestV2 |};
  index := Err (errors_New "not an index");
  image := Ok {| Validate.Image_Manifest := Ok {| Validate.Config_Digest := sha "0b" |};
                 Validate.Image_Digest := Ok (sha "0a") |}
|}.

Definition noTrustData : error :=
  errors_New "notary.example does not have trust data for registry.io/app".

(** A registry that refuses the anonymous fetch. *)
Definition private : Script := {|
  client := Ok 0;
  target := Ok {| Validate.Hashes := ∅ |};
  anonymous := Err (errors_New "UNAUTHORIZED: authentication required");
  authenticated := Ok {| Validate.MediaType := manifestV2 |};
  index := Err (errors_New "not an index");
  image := Err (errors_New "not found")
|}.

Definition authOnly (auth : string) : Validate.AuthConfig :=
  {| Validate.Username := ""; Validate.Password := "";
     Validate.Auth := auth; Validate.RegistryToken := "" |}.

Definition service (allowed : list string) : Validate.notaryService :=
  {| Validate.ServiceConfig_ :=
       {| Validate.NotaryConfig_ := {| Validate.Url := "https://notary.example" |};
          Validate.AllowedRegistries := allowed |} |}.

Definition appRef : Validate.Reference :=
  {| Validate.Context := {| Validate.RegistryStr := "registry.io";
                            Validate.Name := "registry.io/app" |};
     Validate.Identifier := "v1" |}.

(** *** A scripted cluster for the webhook *)

Definition admission_library : Admission.Library := {|
  Admission.Decode := fun req =>
    Ok {| Admission.Pod_Name := "app"; Admission.Pod_Namespace := "default";
          Admission.Labels := None; Admission.Pod_Rest := "" |};
  Admission.json_Marshal := fun pod => Ok [];
  Admission.CreatePatch := fun original current =>
    Ok [ {| Admission.Operation := "add"; Admission.Path := "/metadata/labels";
            Admission.Value := "" |} ];
  Admission.Duration_String := fun d => if Z.eqb d 2000000000 then "2s" else "?"
|}.

Definition constants : Admission.Constants := {|
  Admission.PodValidationLabel := "pods.warden.kyma-project.io/validate";
  Admission.ValidationStatusSuccess := "success";
  Admission.ValidationStatusReject := "reject";
  Admission.ValidationStatusPending := "pending"
|}.

(** The validator answers [verdict] after [latency] nanoseconds, or never
    when [latency] is [None]; the other calls answer at once. *)
Record Cluster : Type := {
  verdict : result Admission.ValidationResult;
  latency : option Z
}.

Definition defaultNamespace : Admission.Namespace :=
  {| Admission.Namespace_Name := "default"; Admission.Namespace_Labels := ∅ |}.

Definition cluster_answer (c : Admission.Call) (w : Cluster)
  : option (Admission.Answer c * Cluster * Z) :=
  match c return option (Admission.Answer c * Cluster * Z) with
  | Admission.LogInfof _ _ => Some (tt, w, 0%Z)
  | Admission.client_Get _ => Some (Ok defaultNamespace, w, 0%Z)
  | Admission.ValidatePod _ _ =>
      match latency w with
      | Some d => Some (verdict w, w, d)
      | None => None
      end
  end.

(** The same cluster without the clock. *)
Definition cluster_answer_now (c : Admission.Call) (w : Cluster)
  : Admission.Answer c * Cluster :=
  match c return Admission.Answer c * Cluster with
  | Admission.LogInfof _ _ => (tt, w)
  | Admission.client_Get _ => (Ok defaultNamespace, w)
  | Admission.ValidatePod _ _ => (verdict w, w)
  end.

Definition podRequest : Admission.Request :=
  {| Admission.UID := "1"; Admission.Kind := "Pod"; Admission.Object_Raw := [] |}.

Definition webhook : Admission.DefaultingWebHook := {| Admission.timeout := 2000000000 |}.

(** A registry that refuses every descriptor fetch. *)
Definition locked : Script := {|
  client := Ok 0;
  target := Ok {| Validate.Hashes := ∅ |};
  anonymous := Err (errors_New "UNAUTHORIZED: authentication required");
  authenticated := Err (errors_New "DENIED: requested access to the resource is denied");
  index := Err (errors_New "not an index");
  image := Err (errors_New "not found")
|}.

Definition registryHost : string := "registry.io".

(** A runtime that takes the [done] case on a tie and a millisecond for
    the goroutine's own steps. *)
Definition runtime : Admission.Runtime :=
  {| Admission.tie := Admission.case_done; Admission.parent_first := false;
     Admission.own := 1000000 |}.

Definition deploymentRequest : Admission.Request :=
  {| Admission.UID := "2"; Admission.Kind := "Deployment"; Admission.Object_Raw := [] |}.

Definition labeledPod : Admission.Pod :=
  {| Admission.Pod_Name := "app"; Admission.Pod_Namespace := "default";
     Admission.Labels := Some {[ "app" := "web" ]}; Admission.Pod_Rest := "" |}.

Definition x0a : Byte.byte := Byte.x0a.
Definition x0b : Byte.byte := Byte.x0b.
Definition x01 : Byte.byte := Byte.x01.
Definition x02 : Byte.byte := Byte.x02.

End Samples.

(** * Properties *)

(** ** Facts about the library layer *)

Module GoFacts.
Import Go.

Lemma prefix_app (p rest : string) : String.prefix p (p ++ rest) = true.
Proof.
  induction p as [|c p IH]; simpl.
  - now destruct rest.
  - destruct (ascii_dec c c) as [_|n]; [exact IH | now destruct n].
Qed.

Lemma prefix_split (p s : string) :
  String.prefix p s = true -> exists rest, s = p ++ rest.
Proof.
  revert s; induction p as [|c p IH]; intros s Hp.
  - now exists s.
  - destruct s as [|d s]; simpl in Hp; [discriminate|].
    destruct (ascii_dec c d) as [->|]; [|discriminate].
    destruct (IH s Hp) as [rest ->]. now exists rest.
Qed.

Lemma HasPrefix_spec (s p : string) :
  HasPrefix s p = true <-> exists rest, s = p ++ rest.
Proof.
  unfold HasPrefix; split.
  - apply prefix_split.
  - intros [rest ->]. apply prefix_app.
Qed.

Lemma Contains_spec (s sub : string) :
  Contains s sub = true <-> exists before after, s = before ++ sub ++ after.
Proof.
  induction s as [|c s IH]; cbn [Contains].
  - split.
    + intros Hp. destruct sub; [|discriminate]. now exists "", "".
    + intros (b & a & E). destruct b; [|discriminate].
      destruct sub; [reflexivity | discriminate].
  - rewrite orb_true_iff, IH. split.
    + intros [Hp | (b & a & ->)].
      * apply prefix_split in Hp as [rest Hr]. exists "", rest. exact Hr.
      * now exists (String c b), a.
    + intros (b & a & E). destruct b as [|d b]; simpl in E.
      * left. rewrite E. exact (prefix_app sub a).
      * right. injection E as _ ->. now exists b, a.
Qed.

Lemma Contains_app (before sub after : string) :
  Contains (before ++ sub ++ after) sub = true.
Proof. apply Contains_spec. now exists before, after. Qed.

(** *** Constant-time comparison is equality of contents *)

Lemma lt_256_log2 (a : N) : (a < 256 <-> a = 0 \/ N.log2 a < 8)%N.
Proof.
  destruct (N.eq_dec a 0%N) as [->|Hne]; [split; [now left | reflexivity]|].
  change 256%N with (2 ^ 8)%N.
  rewrite (N.log2_lt_pow2 a 8%N) by lia.
  split; [now right | now intros [?|?]].
Qed.

Lemma lxor_byte_bound (a b : N) : (a < 256 -> b < 256 -> N.lxor a b < 256)%N.
Proof.
  intros Ha Hb. apply lt_256_log2.
  destruct (N.eq_dec (N.lxor a b) 0%N) as [|Hne]; [now left | right].
  apply lt_256_log2 in Ha, Hb.
  pose proof (N.log2_lxor a b) as Hl.
  assert (N.log2 a < 8)%N by (destruct Ha as [->|]; [reflexivity | assumption]).
  assert (N.log2 b < 8)%N by (destruct Hb as [->|]; [reflexivity | assumption]).
  lia.
Qed.

Lemma lor_byte_bound (a b : N) : (a < 256 -> b < 256 -> N.lor a b < 256)%N.
Proof.
  intros Ha Hb. apply lt_256_log2.
  destruct (N.eq_dec (N.lor a b) 0%N) as [|Hne]; [now left | right].
  apply lt_256_log2 in Ha, Hb.
  rewrite N.log2_lor.
  assert (N.log2 a < 8)%N by (destruct Ha as [->|]; [reflexivity | assumption]).
  assert (N.log2 b < 8)%N by (destruct Hb as [->|]; [reflexivity | assumption]).
  lia.
Qed.

Lemma to_N_lt_256 (b : Byte.byte) : (Byte.to_N b < 256)%N.
Proof. pose proof (Byte.to_N_bounded b). lia. Qed.

Lemma to_N_inj (a b : Byte.byte) : Byte.to_N a = Byte.to_N b -> a = b.
Proof.
  intros E. pose proof (Byte.of_to_N a) as Ha. rewrite E, Byte.of_to_N in Ha.
  congruence.
Qed.

Lemma or_xor_bound (x y : list Byte.byte) (v : N) :
  (v < 256 -> or_xor v x y < 256)%N.
Proof.
  revert y v; induction x as [|a x IH]; intros [|b y] v Hv; simpl; try assumption.
  apply IH, lor_byte_bound; [assumption|].
  apply lxor_byte_bound; apply to_N_lt_256.
Qed.

Lemma or_xor_zero (x y : list Byte.byte) (v : N) :
  List.length x = List.length y ->
  (or_xor v x y = 0%N <-> v = 0%N /\ x = y).
Proof.
  revert y v; induction x as [|a x IH]; intros [|b y] v Hlen; simpl in *;
    try discriminate.
  - tauto.
  - injection Hlen as Hlen. rewrite (IH y _ Hlen), N.lor_eq_0_iff, N.lxor_eq_0_iff.
    split.
    + intros [[Hv Hab] ->]. apply to_N_inj in Hab. now subst.
    + intros [Hv E]. injection E as -> ->. tauto.
Qed.

Lemma ConstantTimeByteEq_zero (v : N) :
  (v < 256)%N -> ConstantTimeByteEq v 0%N = if N.eqb v 0%N then 1%Z else 0%Z.
Proof.
  intros Hv. unfold ConstantTimeByteEq. rewrite N.lxor_0_r.
  destruct (N.eqb_spec v 0%N) as [->|Hne]; [reflexivity|].
  rewrite Z.mod_small by lia.
  rewrite Z.shiftr_div_pow2 by lia.
  apply Z.div_small. lia.
Qed.

Lemma ConstantTimeCompare_spec (x y : bytes) :
  ConstantTimeCompare x y = if decide (bytes_of x = bytes_of y) then 1%Z else 0%Z.
Proof.
  unfold ConstantTimeCompare.
  destruct (Nat.eqb_spec (List.length (bytes_of x)) (List.length (bytes_of y))) as [Hlen|Hlen];
    simpl.
  - rewrite ConstantTimeByteEq_zero by (apply or_xor_bound; reflexivity).
    pose proof (or_xor_zero (bytes_of x) (bytes_of y) 0%N Hlen) as Hz.
    destruct (N.eqb_spec (or_xor 0%N (bytes_of x) (bytes_of y)) 0%N) as [E|E];
      destruct (decide (bytes_of x = bytes_of y)) as [E'|E']; try reflexivity.
    + apply Hz in E. tauto.
    + exfalso. apply E, Hz. tauto.
  - destruct (decide (bytes_of x = bytes_of y)) as [E'|E']; [|reflexivity].
    now rewrite E' in Hlen.
Qed.

Lemma ConstantTimeCompare_eqb (x y : bytes) :
  Z.eqb (ConstantTimeCompare x y) 1 = bool_decide (bytes_of x = bytes_of y).
Proof.
  rewrite ConstantTimeCompare_spec.
  destruct (decide (bytes_of x = bytes_of y)) as [E|E].
  - now rewrite bool_decide_eq_true_2.
  - now rewrite bool_decide_eq_false_2.
Qed.

End GoFacts.

(** ** Facts about programs and their runs *)

Module EffFacts.
Section WithWorld.
Context {Call : Type} {Answer : Call -> Type} {W : Type}.
Context (answer : forall c : Call, W -> Answer c * W).

Lemma run_bind {A B : Type} (p : Eff.Prog Answer A) (f : A -> Eff.Prog Answer B) (w : W) :
  Eff.run answer (Eff.bind p f) w
  = Eff.run answer (f (Eff.run answer p w).1) (Eff.run answer p w).2.
Proof.
  revert w; induction p as [r|c k IH]; intros w; simpl; [reflexivity|].
  destruct (answer c w) as [x w']. apply IH.
Qed.

Lemma trace_bind {A B : Type} (p : Eff.Prog Answer A) (f : A -> Eff.Prog Answer B) (w : W) :
  Eff.trace answer (Eff.bind p f) w
  = (Eff.trace answer p w
     ++ Eff.trace answer (f (Eff.run answer p w).1) (Eff.run answer p w).2)%list.
Proof.
  revert w; induction p as [r|c k IH]; intros w; simpl; [reflexivity|].
  destruct (answer c w) as [x w']. simpl. now rewrite IH.
Qed.

Context `{EqDecision Call}.

Lemma event_call (c c' : Call) (x : Answer c) (y : Answer c') :
  existT c x = existT c' y -> c = c'.
Proof. intros E. exact (f_equal (@projT1 _ _) E). Qed.

Lemma event_answer (c : Call) (x y : Answer c) :
  existT c x = existT c y -> x = y.
Proof. apply Eqdep_dec.inj_pair2_eq_dec. intros a b. apply (decide (a = b)). Qed.
End WithWorld.
End EffFacts.

(** Unfolds the monad operations of a program down to [Eff.bind],
    [Eff.Ret] and [Eff.Do]. *)
Ltac unfold_prog :=
  unfold mbind, mret, prog_bind, prog_ret, Validate.call, Admission.call, Eff.call in *.

(** Splits a membership [In e (e1 :: ... :: [])] of events into its
    cases; a case whose calls differ is closed, and one with the same
    call yields the equality of the arguments and of the answers. *)
Ltac event_cases H :=
  repeat match type of H with
  | _ \/ _ => destruct H as [H | H]
  | False => destruct H
  | In _ (_ :: _) => destruct H as [H | H]
  | In _ [] => destruct H
  end;
  try (let E := fresh "E" in
       pose proof (EffFacts.event_call _ _ _ _ H) as E; simplify_eq).

(** ** The trust authority *)

Module NotaryFacts.
Import Go Validate.

Lemma map_size_one {A : Type} (m : gmap string A) :
  size m = 1 -> exists k v, m = {[ k := v ]}.
Proof.
  intros Hs. rewrite <- length_map_to_list in Hs.
  destruct (map_to_list m) as [|[k v] [|? ?]] eqn:E; try discriminate.
  exists k, v. rewrite <- (list_to_map_to_list m), E. reflexivity.
Qed.

Lemma targetDigest_singleton (key : string) (digest : bytes) :
  targetDigest {| Hashes := {[ key := digest ]} |} = Ok digest.
Proof.
  unfold targetDigest, range_last_key; simpl.
  rewrite map_size_singleton, map_to_list_singleton; simpl.
  now rewrite lookup_singleton_eq.
Qed.

Lemma targetDigest_cases (target : Target) :
  (size (Hashes target) = 0 ->
     targetDigest target = Err (NewValidationFailedErr (errors_New "image hash is missing")))
  /\ (1 < size (Hashes target) ->
     targetDigest target
     = Err (NewValidationFailedErr (errors_New "more than one hash for image")))
  /\ (forall digest, targetDigest target = Ok digest
                     <-> exists key, Hashes target = {[ key := digest ]}).
Proof.
  destruct target as [hashes]; simpl. repeat split.
  - intros E. unfold targetDigest; simpl. now rewrite E.
  - intros Hlt. unfold targetDigest; simpl.
    destruct (Nat.eqb_spec (size hashes) 0) as [E|_]; [lia|].
    destruct (Nat.ltb_spec 1 (size hashes)) as [_|?]; [reflexivity | lia].
  - intros Hok. unfold targetDigest in Hok; simpl in Hok.
    destruct (Nat.eqb_spec (size hashes) 0) as [|Hne]; [discriminate|].
    destruct (Nat.ltb_spec 1 (size hashes)) as [|Hle]; [discriminate|].
    destruct (map_size_one hashes) as (k & v & ->); [lia|].
    exists k. pose proof (targetDigest_singleton k v) as Hs.
    unfold targetDigest in Hs; simpl in Hs.
    rewrite map_size_singleton in Hs; simpl in Hs.
    rewrite Hs in Hok. congruence.
  - intros [key ->]. apply targetDigest_singleton.
Qed.

Section WithWorld.
Context {W : Type} (answer : forall c : Call, W -> Answer c * W).

(** The result of [getNotaryImageDigestHash] is decided by the answer
    of the lookup, when the run reaches it. *)
Lemma lookup_decides (s : notaryService) (ref : Reference) (w : W)
    (c : RepoClient) (name : string) (looked : result Target) :
  In (existT (GetTargetByName c name) looked)
     (Eff.trace answer (getNotaryImageDigestHash s ref) w) ->
  (Eff.run answer (getNotaryImageDigestHash s ref) w).1
  = match looked with
    | Ok target => targetDigest target
    | Err err => Err (parseNotaryErr err)
    end.
Proof.
  unfold getNotaryImageDigestHash. unfold_prog. cbn.
  destruct (answer (LogStartTime _) w) as [[] w1]; cbn.
  destruct (answer (NewRepoClient _ _) w1) as [made w2]; cbn.
  destruct (answer (LogEndTime _) w2) as [[] w3]; cbn.
  destruct made as [c'|err]; cbn.
  - destruct (answer (LogStartTime _) w3) as [[] w4]; cbn.
    destruct (answer (GetTargetByName _ _) w4) as [t w5]; cbn.
    destruct (answer (LogEndTime _) w5) as [[] w6]; cbn.
    intros Hin. destruct t as [target|err]; cbn in *.
    + event_cases Hin. reflexivity.
    + event_cases Hin. reflexivity.
  - intros Hin. event_cases Hin.
Qed.

(** A failure to build the client is reported as it is, unclassified
    by its message. *)
Lemma client_error_decides (s : notaryService) (ref : Reference) (w : W)
    (repoName : string) (cfg : NotaryConfig) (err : error) :
  In (existT (NewRepoClient repoName cfg) (Err err))
     (Eff.trace answer (getNotaryImageDigestHash s ref) w) ->
  (Eff.run answer (getNotaryImageDigestHash s ref) w).1 = Err (NewUnknownResultErr err).
Proof.
  unfold getNotaryImageDigestHash. unfold_prog. cbn.
  destruct (answer (LogStartTime _) w) as [[] w1]; cbn.
  destruct (answer (NewRepoClient _ _) w1) as [made w2]; cbn.
  destruct (answer (LogEndTime _) w2) as [[] w3]; cbn.
  destruct made as [c'|err']; cbn.
  - destruct (answer (LogStartTime _) w3) as [[] w4]; cbn.
    destruct (answer (GetTargetByName _ _) w4) as [t w5]; cbn.
    destruct (answer (LogEndTime _) w5) as [[] w6]; cbn.
    intros Hin. destruct t as [target|err']; cbn in *.
    + event_cases Hin.
    + event_cases Hin.
  - intros Hin. event_cases Hin. reflexivity.
Qed.
End WithWorld.
End NotaryFacts.

(** ** [strings.Split] on a one-byte separator *)

Module SplitFacts.
Import Go.

Lemma str_app_cons (a : ascii) (s t : string) : String a s ++ t = String a (s ++ t).
Proof. reflexivity. Qed.

Lemma str_app_nil_r (s : string) : s ++ "" = s.
Proof. induction s as [|a s IH]; [reflexivity | now rewrite str_app_cons, IH]. Qed.

Lemma str_app_assoc (a b c : string) : (a ++ b) ++ c = a ++ (b ++ c).
Proof. induction a as [|x a IH]; [reflexivity | now rewrite !str_app_cons, IH]. Qed.

Lemma prefix_sep1 (c d : ascii) (s : string) :
  String.prefix (sep1 c) (String d s) = bool_decide (c = d).
Proof.
  unfold sep1; simpl. destruct (ascii_dec c d) as [E|E].
  - rewrite bool_decide_eq_true_2 by assumption. now destruct s.
  - now rewrite bool_decide_eq_false_2.
Qed.

Lemma Contains_cons (c d : ascii) (s : string) :
  Contains (String d s) (sep1 c) = bool_decide (c = d) || Contains s (sep1 c).
Proof. cbn [Contains]. now rewrite prefix_sep1. Qed.

Lemma Contains_sep1_app (c : ascii) (a b : string) :
  Contains (a ++ b) (sep1 c) = Contains a (sep1 c) || Contains b (sep1 c).
Proof.
  induction a as [|d a IH]; [reflexivity|].
  change (String d a ++ b) with (String d (a ++ b)).
  now rewrite !Contains_cons, IH, orb_assoc.
Qed.

Lemma split_step (c d : ascii) (s cur : string) :
  split_from (sep1 c) (String d s) 0 cur
  = if bool_decide (c = d) then cur :: split_from (sep1 c) s 0 ""
    else split_from (sep1 c) s 0 (cur ++ sep1 d).
Proof. cbn [split_from]. now rewrite prefix_sep1. Qed.

(** Without the separator there is one piece. *)
Lemma split_none (c : ascii) (s cur : string) :
  Contains s (sep1 c) = false -> split_from (sep1 c) s 0 cur = [cur ++ s].
Proof.
  revert cur; induction s as [|d s IH]; intros cur Hc.
  - now rewrite str_app_nil_r.
  - rewrite Contains_cons in Hc. apply orb_false_iff in Hc as [Hd Hs].
    rewrite split_step, Hd, (IH _ Hs), str_app_assoc. reflexivity.
Qed.

(** The first piece ends at the first separator. *)
Lemma split_first (c : ascii) (u rest cur : string) :
  Contains u (sep1 c) = false ->
  split_from (sep1 c) (u ++ String c rest) 0 cur
  = (cur ++ u) :: split_from (sep1 c) rest 0 "".
Proof.
  revert cur; induction u as [|d u IH]; intros cur Hc.
  - change ("" ++ String c rest) with (String c rest).
    rewrite split_step, bool_decide_eq_true_2, str_app_nil_r by reflexivity. reflexivity.
  - rewrite Contains_cons in Hc. apply orb_false_iff in Hc as [Hd Hs].
    change (String d u ++ String c rest) with (String d (u ++ String c rest)).
    rewrite split_step, Hd, (IH _ Hs), str_app_assoc. reflexivity.
Qed.

(** Joining the pieces gives the string back. *)
Lemma join_split (c : ascii) (s cur : string) :
  join (sep1 c) (split_from (sep1 c) s 0 cur) = cur ++ s.
Proof.
  revert cur; induction s as [|d s IH]; intros cur.
  - now rewrite str_app_nil_r.
  - rewrite split_step. destruct (bool_decide (c = d)) eqn:E.
    + apply bool_decide_eq_true in E as ->.
      pose proof (IH "") as IH'.
      destruct (split_from (sep1 d) s 0 "") as [|piece rest] eqn:Es.
      * destruct s; [discriminate Es|]. rewrite split_step in Es.
        destruct (bool_decide _); [discriminate Es|].
        clear - Es. exfalso. revert Es. generalize ("" ++ sep1 a). clear.
        induction s as [|e s IHs]; intros cur; [discriminate|].
        rewrite split_step. destruct (bool_decide _); [discriminate | apply IHs].
      * cbn [join]. cbn [join] in IH'. rewrite IH'. reflexivity.
    + rewrite IH, str_app_assoc. reflexivity.
Qed.

(** No piece contains the separator. *)
Lemma split_pieces (c : ascii) (s cur : string) :
  Contains cur (sep1 c) = false ->
  Forall (fun piece => Contains piece (sep1 c) = false) (split_from (sep1 c) s 0 cur).
Proof.
  revert cur; induction s as [|d s IH]; intros cur Hc.
  - now constructor.
  - rewrite split_step. destruct (bool_decide (c = d)) eqn:E.
    + constructor; [assumption | now apply IH].
    + apply IH. rewrite Contains_sep1_app, Hc. cbn [orb].
      etransitivity; [apply (Contains_cons c d "")|]. now rewrite E.
Qed.

(** [Split] gives exactly two pieces when, and only when, the string
    holds the separator once. *)
Lemma Split_pair (c : ascii) (s u p : string) :
  Split s (sep1 c) = [u; p]
  <-> s = u ++ sep1 c ++ p
      /\ Contains u (sep1 c) = false /\ Contains p (sep1 c) = false.
Proof.
  unfold Split. split.
  - intros E. pose proof (join_split c s "") as Hj.
    pose proof (split_pieces c s "" eq_refl) as Hp.
    rewrite E in Hj, Hp. cbn [join] in Hj.
    inversion Hp as [|? ? Hu Hp']. inversion Hp' as [|? ? Hq _]. subst.
    repeat split; try assumption. symmetry. exact Hj.
  - intros (-> & Hu & Hp).
    change (u ++ sep1 c ++ p) with (u ++ String c p).
    rewrite (split_first c u p "" Hu), (split_none c p "" Hp). reflexivity.
Qed.
End SplitFacts.

(** ** Claims on the trust authority, the registry fetch and the credentials *)

Module Lookup.
Import Go Validate.

(** C5. Whenever the lookup of the trust authority returns a target
    without error, [getNotaryImageDigestHash] fails with the
    validation error "image hash is missing" if the target has no hash,
    with the validation error "more than one hash for image" if it has
    more than one, and returns a digest exactly when the target has one
    hash, that hash being the digest. *)
Theorem target_hash_count {W : Type} (answer : forall c : Call, W -> Answer c * W)
    (s : notaryService) (ref : Reference) (w : W)
    (c : RepoClient) (name : string) (target : Target) :
  In (existT (GetTargetByName c name) (Ok target))
     (Eff.trace answer (getNotaryImageDigestHash s ref) w) ->
  let r := (Eff.run answer (getNotaryImageDigestHash s ref) w).1 in
  (size (Hashes target) = 0 ->
     r = Err (pkg_Err ValidationFailed (errors_New "image hash is missing")))
  /\ (1 < size (Hashes target) ->
     r = Err (pkg_Err ValidationFailed (errors_New "more than one hash for image")))
  /\ (forall digest, r = Ok digest <-> exists key, Hashes target = {[ key := digest ]}).
Proof.
  intros Hin r. subst r.
  rewrite (NotaryFacts.lookup_decides answer s ref w c name (Ok target) Hin).
  apply NotaryFacts.targetDigest_cases.
Qed.

Lemma target_hash_count_witness :
  (Eff.run Samples.answer
     (getNotaryImageDigestHash (Samples.service []) Samples.appRef)
     (Samples.notary (Ok 7) (Ok {| Hashes := ∅ |}))).1
  = Err (pkg_Err ValidationFailed (errors_New "image hash is missing")).
Proof.
  apply (target_hash_count Samples.answer (Samples.service []) Samples.appRef
           (Samples.notary (Ok 7) (Ok {| Hashes := ∅ |})) 7 "v1" {| Hashes := ∅ |}).
  - simpl. tauto.
  - reflexivity.
Defined.

(** C6, as the code has it.  An error of the lookup is a validation
    failure when its message contains "does not have trust data for" or
    "No valid trust data for", and an unknown result otherwise; an error
    of the client factory is an unknown result whatever its message. *)
Theorem error_classification {W : Type} (answer : forall c : Call, W -> Answer c * W)
    (s : notaryService) (ref : Reference) (w : W) (err : error) :
  let r := (Eff.run answer (getNotaryImageDigestHash s ref) w).1 in
  (forall c name,
     In (existT (GetTargetByName c name) (Err err))
        (Eff.trace answer (getNotaryImageDigestHash s ref) w) ->
     r = Err (pkg_Err (if Contains (Error err) "does not have trust data for"
                          || Contains (Error err) "No valid trust data for"
                       then ValidationFailed else UnknownResult) err))
  /\ (forall repoName cfg,
     In (existT (NewRepoClient repoName cfg) (Err err))
        (Eff.trace answer (getNotaryImageDigestHash s ref) w) ->
     r = Err (pkg_Err UnknownResult err)).
Proof.
  intros r; subst r; split.
  - intros c name Hin.
    rewrite (NotaryFacts.lookup_decides answer s ref w c name (Err err) Hin).
    unfold parseNotaryErr.
    destruct (Contains (Error err) "does not have trust data for"); [reflexivity|].
    destruct (Contains (Error err) "No valid trust data for"); reflexivity.
  - intros repoName cfg Hin.
    apply (NotaryFacts.client_error_decides answer s ref w repoName cfg err Hin).
Qed.

Lemma error_classification_witness :
  (Eff.run Samples.answer
     (getNotaryImageDigestHash (Samples.service []) Samples.appRef)
     (Samples.notary (Ok 7) (Err Samples.noTrustData))).1
  = Err (pkg_Err ValidationFailed Samples.noTrustData).
Proof.
  apply (proj1 (error_classification Samples.answer (Samples.service []) Samples.appRef
                  (Samples.notary (Ok 7) (Err Samples.noTrustData)) Samples.noTrustData)
           7 "v1").
  simpl. tauto.
Defined.

(** C6, as stated, fails: the client factory fails with a message that
    says that there is no trust data for the repository, and the engine
    returns an unknown result, not a validation failure. *)
Lemma client_error_not_reclassified :
  Contains (Error Samples.noTrustData) "does not have trust data for" = true
  /\ (Eff.run Samples.answer
        (getNotaryImageDigestHash (Samples.service []) Samples.appRef)
        (Samples.notary (Err Samples.noTrustData) (Ok {| Hashes := ∅ |}))).1
     = Err (pkg_Err UnknownResult Samples.noTrustData).
Proof. split; reflexivity. Qed.

(** C7. When the anonymous descriptor fetch fails and the credentials
    hold no entry under the registry host of the image,
    [getRepositoryDigestHash] fails with an unknown result, which is not
    a validation failure, and makes no further call. *)
Theorem anonymous_failure_is_unknown `{Library} {W : Type}
    (answer : forall c : Call, W -> Answer c * W)
    (ref : Reference) (imagePullCredentials : gmap string AuthConfig) (w : W) (err : error) :
  (answer (remote_Get ref []) w).1 = Err err ->
  imagePullCredentials !! RegistryStr (Context ref) = None ->
  let r := (Eff.run answer (getRepositoryDigestHash ref imagePullCredentials) w).1 in
  r = Err (pkg_Err UnknownResult (errors_Wrap err "get image descriptor anonymously"))
  /\ (forall e, r = Err e -> code_of e = Some UnknownResult /\ code_of e <> Some ValidationFailed)
  /\ Eff.trace answer (getRepositoryDigestHash ref imagePullCredentials) w
     = [existT (remote_Get ref []) (Err err)].
Proof.
  intros Hget Hnone r. subst r.
  unfold getRepositoryDigestHash. unfold_prog. cbn.
  destruct (answer (remote_Get ref []) w) as [d w1]. cbn in Hget. subst d.
  rewrite Hnone. cbn. split; [reflexivity | split; [|reflexivity]].
  intros e E. injection E as <-. split; [reflexivity | discriminate].
Qed.

Lemma anonymous_failure_is_unknown_witness :
  (Eff.run Samples.answer
     (getRepositoryDigestHash (H := Samples.library) Samples.appRef ∅) Samples.private).1
  = Err (pkg_Err UnknownResult
           (errors_Wrap (errors_New "UNAUTHORIZED: authentication required")
              "get image descriptor anonymously")).
Proof.
  apply (anonymous_failure_is_unknown (H := Samples.library) Samples.answer
           Samples.appRef ∅ Samples.private).
  - reflexivity.
  - reflexivity.
Defined.
End Lookup.

Module Credentials.
Import Go Validate.

Section WithLibrary.
Context `{Library}.

Lemma basic_branch (credentials : AuthConfig) :
  Username credentials <> "" -> Password credentials <> "" ->
  parseCredentials credentials = Ok (Basic (Username credentials) (Password credentials)).
Proof.
  intros Hu Hp. unfold parseCredentials.
  apply String.eqb_neq in Hu, Hp. now rewrite Hu, Hp.
Qed.

(** Without a user name or without a password, the first test fails. *)
Lemma past_basic (credentials : AuthConfig) :
  Username credentials = "" \/ Password credentials = "" ->
  negb (String.eqb (Username credentials) "") && negb (String.eqb (Password credentials) "")
  = false.
Proof.
  intros [E | E]; rewrite E; cbn; [reflexivity | apply andb_false_r].
Qed.

Lemma bearer_branch (credentials : AuthConfig) :
  Username credentials = "" \/ Password credentials = "" ->
  RegistryToken credentials <> "" ->
  parseCredentials credentials = Ok (Bearer (RegistryToken credentials)).
Proof.
  intros Hbasic Ht. unfold parseCredentials.
  apply String.eqb_neq in Ht. now rewrite (past_basic _ Hbasic), Ht.
Qed.

Lemma auth_branch (credentials : AuthConfig) :
  Username credentials = "" \/ Password credentials = "" ->
  RegistryToken credentials = "" ->
  Auth credentials <> "" ->
  parseCredentials credentials
  = match base64_DecodeString (Auth credentials) with
    | Err err => Err (pkg_Err ValidationFailed
                        (errors_Wrap err "cannot decode base64 encoded auth"))
    | Ok decoded =>
        match Split decoded ":" with
        | [user; password] => Ok (Basic user password)
        | _ => Err (pkg_Err ValidationFailed
                      (errors_New "invalid auth format, expected username:password form"))
        end
    end.
Proof.
  intros Hbasic Ht Ha. unfold parseCredentials.
  apply String.eqb_neq in Ha. now rewrite (past_basic _ Hbasic), Ht, Ha.
Qed.

Lemma unknown_branch (credentials : AuthConfig) :
  Username credentials = "" \/ Password credentials = "" ->
  RegistryToken credentials = "" ->
  Auth credentials = "" ->
  parseCredentials credentials
  = Err (pkg_Err ValidationFailed (errors_New "unknown auth secret format")).
Proof.
  intros Hbasic Ht Ha. unfold parseCredentials.
  now rewrite (past_basic _ Hbasic), Ht, Ha.
Qed.

Lemma errors_are_validation_failures (credentials : AuthConfig) (err : error) :
  parseCredentials credentials = Err err -> code_of err = Some ValidationFailed.
Proof.
  unfold parseCredentials.
  destruct (negb (String.eqb (Username credentials) "")
            && negb (String.eqb (Password credentials) "")); [discriminate|].
  destruct (negb (String.eqb (RegistryToken credentials) "")); [discriminate|].
  destruct (negb (String.eqb (Auth credentials) "")).
  - destruct (base64_DecodeString (Auth credentials)) as [decoded|err'].
    + destruct (Split decoded ":") as [|? [|? [|? ?]]]; intros E;
        try discriminate E; now injection E as <-.
    + intros E. now injection E as <-.
  - intros E. now injection E as <-.
Qed.

(** Two pieces come out of [Split] on ":" exactly for a text with one
    colon. *)
Lemma colon_pair (decoded user password : string) :
  Split decoded ":" = [user; password]
  <-> decoded = user ++ ":" ++ password
      /\ Contains user ":" = false /\ Contains password ":" = false.
Proof. apply (SplitFacts.Split_pair ":"%char). Qed.

End WithLibrary.

(** C8. [parseCredentials] is a function of the record alone.  A record
    with user name and password both non-empty gives the basic
    authenticator of the two; else a record with a registry token gives
    the bearer authenticator of the token; else a record with an auth
    string that decodes from base64 gives the basic authenticator of the
    two parts when the decoded text holds exactly one colon, and the
    validation error "invalid auth format, expected username:password
    form" when it does not (a string that does not decode is a
    validation error too); a record with none of these gives the
    validation error "unknown auth secret format".  Every error is a
    validation failure, none an unknown result. *)
Theorem parseCredentials_resolution `{Library} (credentials : AuthConfig) :
  (Username credentials <> "" -> Password credentials <> "" ->
     parseCredentials credentials
     = Ok (Basic (Username credentials) (Password credentials)))
  /\ (Username credentials = "" \/ Password credentials = "" ->
      (RegistryToken credentials <> "" ->
         parseCredentials credentials = Ok (Bearer (RegistryToken credentials)))
      /\ (RegistryToken credentials = "" -> Auth credentials <> "" ->
          (forall decoded, base64_DecodeString (Auth credentials) = Ok decoded ->
             (forall user password,
                decoded = user ++ ":" ++ password ->
                Contains user ":" = false -> Contains password ":" = false ->
                parseCredentials credentials = Ok (Basic user password))
             /\ ((forall user password,
                    ~ (decoded = user ++ ":" ++ password
                       /\ Contains user ":" = false /\ Contains password ":" = false)) ->
                 parseCredentials credentials
                 = Err (pkg_Err ValidationFailed
                          (errors_New "invalid auth format, expected username:password form"))))
          /\ (forall err, base64_DecodeString (Auth credentials) = Err err ->
                parseCredentials credentials
                = Err (pkg_Err ValidationFailed
                         (errors_Wrap err "cannot decode base64 encoded auth"))))
      /\ (RegistryToken credentials = "" -> Auth credentials = "" ->
          parseCredentials credentials
          = Err (pkg_Err ValidationFailed (errors_New "unknown auth secret format"))))
  /\ (forall err, parseCredentials credentials = Err err -> code_of err = Some ValidationFailed).
Proof.
  split; [apply basic_branch | split; [|apply errors_are_validation_failures]].
  intros Hbasic. split; [now apply bearer_branch | split; [|now apply unknown_branch]].
  intros Ht Ha. rewrite (auth_branch credentials Hbasic Ht Ha). split.
  - intros decoded ->. split.
    + intros user password E Hu Hp.
      now rewrite (proj2 (colon_pair decoded user password) (conj E (conj Hu Hp))).
    + intros Hnone.
      destruct (Split decoded ":") as [|user [|password [|? ?]]] eqn:Es; try reflexivity.
      destruct (Hnone user password). now apply colon_pair.
  - now intros err ->.
Qed.

Lemma parseCredentials_resolution_witness :
  parseCredentials (H := Samples.library) (Samples.authOnly "dTpw") = Ok (Basic "u" "p").
Proof.
  refine (proj1 (proj1 (proj1 (proj2 (proj1 (proj2
            (parseCredentials_resolution (H := Samples.library) (Samples.authOnly "dTpw")))
            _)) _ _) "u:p" _) "u" "p" _ _ _).
  - left. reflexivity.
  - reflexivity.
  - simpl. discriminate.
  - reflexivity.
  - reflexivity.
  - reflexivity.
  - reflexivity.
Defined.

(** The examples of the spec, with the sample decoder. *)
Example resolve_user_password :
  parseCredentials (H := Samples.library)
    {| Username := "u"; Password := "p"; Auth := ""; RegistryToken := "" |}
  = Ok (Basic "u" "p").
Proof. reflexivity. Qed.

Example resolve_auth_without_pair :
  parseCredentials (H := Samples.library) (Samples.authOnly "bm9wYWly")
  = Err (pkg_Err ValidationFailed
           (errors_New "invalid auth format, expected username:password form")).
Proof. reflexivity. Qed.

Example resolve_auth_two_colons :
  parseCredentials (H := Samples.library) (Samples.authOnly "dTpwOnE=")
  = Err (pkg_Err ValidationFailed
           (errors_New "invalid auth format, expected username:password form")).
Proof. reflexivity. Qed.

Example resolve_empty_record :
  parseCredentials (H := Samples.library) (Samples.authOnly "")
  = Err (pkg_Err ValidationFailed (errors_New "unknown auth secret format")).
Proof. reflexivity. Qed.
End Credentials.

(** ** Claims on the validation engine *)

Module Engine.
Import Go Validate.

Lemma single_flip_neq (l l' : list Byte.byte) : single_flip l l' -> l <> l'.
Proof.
  intros (before & a & b & after & Hab & -> & ->) E.
  apply app_inv_head in E. congruence.
Qed.

Lemma isAllowedIn_spec (allowedRegistries : list string) (imgRepo : string) :
  isAllowedIn allowedRegistries imgRepo = true
  <-> exists allowed, In allowed allowedRegistries /\ HasPrefix imgRepo allowed = true.
Proof.
  induction allowedRegistries as [|a l IH]; simpl.
  - split; [discriminate | now intros (? & [] & _)].
  - destruct (HasPrefix imgRepo a) eqn:E.
    + split; [intros _; exists a; auto | reflexivity].
    + rewrite IH. split.
      * intros (x & Hin & Hx). exists x; auto.
      * intros (x & [->|Hin] & Hx); [congruence | exists x; auto].
Qed.

Section WithLibrary.
Context `{Library}.

(** The verdict of [Validate] once both digests are fetched. *)
Lemma Validate_verdict {W : Type} (answer : forall c : Call, W -> Answer c * W)
    (s : notaryService) (image : string) (imagePullCredentials : gmap string AuthConfig)
    (ref : Reference) (expected shaImage shaManifest : bytes) (w0 w1 w2 : W) :
  isImageAllowed s image = false ->
  ParseReference image = Ok ref ->
  Eff.run answer (loggedGetNotaryImageDigestHash s ref) w0 = (Ok expected, w1) ->
  Eff.run answer (loggedGetRepositoryDigestHash ref imagePullCredentials) w1
  = (Ok (shaImage, shaManifest), w2) ->
  (Eff.run answer (Validate s image imagePullCredentials) w0).1
  = if bool_decide (bytes_of shaImage = bytes_of expected) then None
    else if negb (is_nil shaManifest)
            && bool_decide (bytes_of shaManifest = bytes_of expected) then None
    else Some (NewValidationFailedErr (errors_New "unexpected image hash value")).
Proof.
  intros Hallowed Hparse Hnotary Hrepo.
  unfold Validate. rewrite Hallowed, Hparse. unfold_prog.
  rewrite EffFacts.run_bind, Hnotary. cbn [fst snd].
  rewrite EffFacts.run_bind, Hrepo. cbn [fst snd].
  rewrite !GoFacts.ConstantTimeCompare_eqb.
  destruct (bool_decide (bytes_of shaImage = bytes_of expected)); [reflexivity|].
  destruct (negb (is_nil shaManifest) && bool_decide (bytes_of shaManifest = bytes_of expected));
    [|reflexivity].
  cbn. now destruct (answer (LogWarn _) w2).
Qed.
End WithLibrary.

(** C1. For an image that is not allow-listed, whose string parses, and
    for which both the digest of the trust authority and the digests of
    the registry are fetched: [Validate] succeeds if the primary digest
    of the registry has the bytes of the expected digest; otherwise it
    succeeds if the legacy manifest digest is not nil and has the bytes
    of the expected digest; otherwise it fails with the validation error
    "unexpected image hash value". *)
Theorem digest_comparison `{Library} {W : Type} (answer : forall c : Call, W -> Answer c * W)
    (s : notaryService) (image : string) (imagePullCredentials : gmap string AuthConfig)
    (ref : Reference) (expected shaImage shaManifest : bytes) (w0 w1 w2 : W) :
  isImageAllowed s image = false ->
  ParseReference image = Ok ref ->
  Eff.run answer (loggedGetNotaryImageDigestHash s ref) w0 = (Ok expected, w1) ->
  Eff.run answer (loggedGetRepositoryDigestHash ref imagePullCredentials) w1
  = (Ok (shaImage, shaManifest), w2) ->
  let verdict := (Eff.run answer (Validate s image imagePullCredentials) w0).1 in
  (bytes_of shaImage = bytes_of expected -> verdict = None)
  /\ (bytes_of shaImage <> bytes_of expected ->
      shaManifest <> None -> bytes_of shaManifest = bytes_of expected -> verdict = None)
  /\ (bytes_of shaImage <> bytes_of expected ->
      shaManifest = None \/ bytes_of shaManifest <> bytes_of expected ->
      verdict = Some (pkg_Err ValidationFailed (errors_New "unexpected image hash value"))).
Proof.
  intros Hallowed Hparse Hnotary Hrepo verdict. subst verdict.
  rewrite (Validate_verdict answer s image imagePullCredentials ref expected
             shaImage shaManifest w0 w1 w2 Hallowed Hparse Hnotary Hrepo).
  repeat split.
  - intros E. now rewrite bool_decide_eq_true_2.
  - intros Hne Hnil E. rewrite bool_decide_eq_false_2 by assumption.
    rewrite (bool_decide_eq_true_2 _ E). now destruct shaManifest.
  - intros Hne Hm. rewrite bool_decide_eq_false_2 by assumption.
    destruct Hm as [-> | Hm]; [reflexivity|].
    rewrite (bool_decide_eq_false_2 _ Hm). now rewrite andb_false_r.
Qed.

Lemma digest_comparison_witness :
  (Eff.run Samples.answer
     (Validate (H := Samples.library) (Samples.service []) "registry.io/app:v1" ∅)
     (Samples.registry "0a" "0b" [Samples.x0b])).1 = None.
Proof.
  refine (proj1 (proj2 (digest_comparison (H := Samples.library) Samples.answer
            (Samples.service []) "registry.io/app:v1" ∅ Samples.appRef
            (Some [Samples.x0b]) (Some [Samples.x0a]) (Some [Samples.x0b])
            (Samples.registry "0a" "0b" [Samples.x0b]) _ _ _ _ _ _)) _ _ _);
    first [reflexivity | discriminate].
Defined.

(** C2. An image whose string starts with a prefix of the allow-list is
    accepted at once: [Validate] logs that validation is skipped and
    returns success, calling neither the trust authority nor the
    registry.  An image is allowed exactly when its string starts with
    some configured prefix, and the order of the prefixes does not
    matter. *)
Theorem allow_list_short_circuit `{Library} (s : notaryService) (image : string)
    (imagePullCredentials : gmap string AuthConfig) :
  ((exists allowed, In allowed (AllowedRegistries (ServiceConfig_ s))
                    /\ HasPrefix image allowed = true) ->
   Validate s image imagePullCredentials
   = (call (LogInfo "image validation skipped, because it's allowed");; mret None)
   /\ forall (W : Type) (answer : forall c : Call, W -> Answer c * W) (w : W),
        (Eff.run answer (Validate s image imagePullCredentials) w).1 = None
        /\ Forall (fun e => is_network (projT1 e) = false)
                  (Eff.trace answer (Validate s image imagePullCredentials) w))
  /\ (isImageAllowed s image = true
      <-> exists allowed rest, In allowed (AllowedRegistries (ServiceConfig_ s))
                               /\ image = allowed ++ rest)
  /\ (forall s' : notaryService,
        Permutation (AllowedRegistries (ServiceConfig_ s))
                    (AllowedRegistries (ServiceConfig_ s')) ->
        isImageAllowed s' image = isImageAllowed s image).
Proof.
  split; [|split; [split|]].
  - intros Hex. apply isAllowedIn_spec in Hex.
    unfold Validate, isImageAllowed. rewrite Hex. split; [reflexivity|].
    intros W answer w. unfold_prog. cbn.
    destruct (answer (LogInfo _) w) as [[] w']. cbn.
    split; [reflexivity | constructor; [reflexivity | constructor]].
  - intros Ha. apply isAllowedIn_spec in Ha as (allowed & Hin & Hp).
    apply GoFacts.HasPrefix_spec in Hp as [rest ->]. now exists allowed, rest.
  - intros (allowed & rest & Hin & ->). apply isAllowedIn_spec.
    exists allowed. split; [assumption|]. apply GoFacts.HasPrefix_spec. now exists rest.
  - intros s' Hperm. unfold isImageAllowed.
    destruct (isAllowedIn (AllowedRegistries (ServiceConfig_ s)) image) eqn:E.
    + apply isAllowedIn_spec in E as (a & Hin & Hp). apply isAllowedIn_spec.
      exists a. split; [|assumption]. now apply (Permutation_in _ Hperm).
    + destruct (isAllowedIn (AllowedRegistries (ServiceConfig_ s')) image) eqn:E'; [|reflexivity].
      apply isAllowedIn_spec in E' as (a & Hin & Hp).
      assert (isAllowedIn (AllowedRegistries (ServiceConfig_ s)) image = true) as E2.
      { apply isAllowedIn_spec. exists a. split; [|assumption].
        now apply (Permutation_in _ (Permutation_sym Hperm)). }
      congruence.
Qed.

Lemma allow_list_short_circuit_witness :
  Eff.trace Samples.answer
    (Validate (H := Samples.library) (Samples.service ["docker.io/"; "registry.io/"])
       "registry.io/app:v1" ∅)
    (Samples.registry "0a" "0b" [Samples.x01])
  = [existT (LogInfo "image validation skipped, because it's allowed") tt].
Proof.
  rewrite (proj1 (proj1 (allow_list_short_circuit (H := Samples.library)
             (Samples.service ["docker.io/"; "registry.io/"]) "registry.io/app:v1" ∅)
             (ex_intro _ "registry.io/" (conj (or_intror (or_introl eq_refl)) eq_refl)))).
  reflexivity.
Defined.

(** C3, as the code has it.  For an image that is not allow-listed and
    parses, [Validate] succeeds when the registry digest has the bytes
    of the digest of the trust authority; and when the two differ in a
    single byte, [Validate] fails with "unexpected image hash value"
    unless a legacy manifest digest was returned and has the bytes of
    the digest of the trust authority, in which case [Validate] still
    succeeds, through the deprecated comparison, whose warning it
    logs. *)
Theorem single_byte_flip `{Library} {W : Type} (answer : forall c : Call, W -> Answer c * W)
    (s : notaryService) (image : string) (imagePullCredentials : gmap string AuthConfig)
    (ref : Reference) (expected shaImage shaManifest : bytes) (w0 w1 w2 : W) :
  isImageAllowed s image = false ->
  ParseReference image = Ok ref ->
  Eff.run answer (loggedGetNotaryImageDigestHash s ref) w0 = (Ok expected, w1) ->
  Eff.run answer (loggedGetRepositoryDigestHash ref imagePullCredentials) w1
  = (Ok (shaImage, shaManifest), w2) ->
  let verdict := (Eff.run answer (Validate s image imagePullCredentials) w0).1 in
  (bytes_of shaImage = bytes_of expected -> verdict = None)
  /\ (single_flip (bytes_of shaImage) (bytes_of expected) ->
      shaManifest = None \/ bytes_of shaManifest <> bytes_of expected ->
      verdict = Some (pkg_Err ValidationFailed (errors_New "unexpected image hash value")))
  /\ (single_flip (bytes_of shaImage) (bytes_of expected) ->
      shaManifest <> None -> bytes_of shaManifest = bytes_of expected ->
      verdict = None
      /\ In (LogWarn "deprecated: manifest hash was used for verification")
            (map (@projT1 _ _)
               (Eff.trace answer (Validate s image imagePullCredentials) w0))).
Proof.
  intros Hallowed Hparse Hnotary Hrepo verdict. subst verdict.
  rewrite (Validate_verdict answer s image imagePullCredentials ref expected
             shaImage shaManifest w0 w1 w2 Hallowed Hparse Hnotary Hrepo).
  split; [|split].
  - intros E. now rewrite bool_decide_eq_true_2.
  - intros Hflip Hm. apply single_flip_neq in Hflip.
    rewrite bool_decide_eq_false_2 by assumption.
    destruct Hm as [-> | Hm]; [reflexivity|].
    rewrite (bool_decide_eq_false_2 _ Hm). now rewrite andb_false_r.
  - intros Hflip Hnil Hm. apply single_flip_neq in Hflip.
    rewrite bool_decide_eq_false_2 by assumption.
    rewrite (bool_decide_eq_true_2 _ Hm).
    destruct shaManifest as [manifest|]; [|contradiction].
    split; [reflexivity|].
    unfold Validate. rewrite Hallowed, Hparse. unfold_prog.
    rewrite EffFacts.trace_bind, Hnotary, map_app. cbn [fst snd].
    apply in_or_app. right.
    rewrite EffFacts.trace_bind, Hrepo, map_app. cbn [fst snd].
    apply in_or_app. right.
    rewrite !GoFacts.ConstantTimeCompare_eqb.
    rewrite (bool_decide_eq_false_2 _ Hflip), (bool_decide_eq_true_2 _ Hm).
    cbn. destruct (answer (LogWarn _) w2). now left.
Qed.

Lemma single_byte_flip_witness :
  (Eff.run Samples.answer
     (Validate (H := Samples.library) (Samples.service []) "registry.io/app:v1" ∅)
     (Samples.registry "0a" "0b" [Samples.x01])).1
  = Some (pkg_Err ValidationFailed (errors_New "unexpected image hash value")).
Proof.
  refine (proj1 (proj2 (single_byte_flip (H := Samples.library) Samples.answer
            (Samples.service []) "registry.io/app:v1" ∅ Samples.appRef
            (Some [Samples.x01]) (Some [Samples.x0a]) (Some [Samples.x0b])
            (Samples.registry "0a" "0b" [Samples.x01]) _ _ _ _ _ _)) _ _);
    try reflexivity.
  - exists [], Samples.x0a, Samples.x01, []. repeat split. discriminate.
  - right. discriminate.
Defined.

(** C3, as stated, fails: the registry digest [0a] is the signed digest
    and [Validate] succeeds; with one byte of the signed digest changed,
    to [0b], [Validate] still succeeds, because the legacy manifest
    digest of the image is [0b]. *)
Lemma flipped_digest_still_accepted :
  single_flip [Samples.x0a] [Samples.x0b]
  /\ (Eff.run Samples.answer
        (Validate (H := Samples.library) (Samples.service []) "registry.io/app:v1" ∅)
        (Samples.registry "0a" "0b" [Samples.x0a])).1 = None
  /\ (Eff.run Samples.answer
        (Validate (H := Samples.library) (Samples.service []) "registry.io/app:v1" ∅)
        (Samples.registry "0a" "0b" [Samples.x0b])).1 = None.
Proof.
  split; [|split; reflexivity].
  exists [], Samples.x0a, Samples.x0b, []. repeat split. discriminate.
Qed.

(** C10. The allow-list is checked before the image string is parsed:
    for a string that does not parse as a reference, [Validate] succeeds
    when the string starts with an allow-listed prefix, without a call
    to the trust authority or the registry, and fails with the
    validation error "image name could not be parsed" only when the
    string is not allow-listed. *)
Theorem allow_list_before_parsing `{Library} (s : notaryService) (image : string)
    (imagePullCredentials : gmap string AuthConfig) (err : error) :
  ParseReference image = Err err ->
  (isImageAllowed s image = true ->
     forall (W : Type) (answer : forall c : Call, W -> Answer c * W) (w : W),
       (Eff.run answer (Validate s image imagePullCredentials) w).1 = None
       /\ map (fun e => is_network (projT1 e))
              (Eff.trace answer (Validate s image imagePullCredentials) w) = [false])
  /\ (isImageAllowed s image = false ->
      Validate s image imagePullCredentials
      = mret (Some (pkg_Err ValidationFailed (errors_Wrap err "image name could not be parsed")))).
Proof.
  intros Hparse. split; intros Hallowed; unfold Validate; rewrite Hallowed.
  - intros W answer w. unfold_prog. cbn.
    destruct (answer (LogInfo _) w) as [[] w']. split; reflexivity.
  - now rewrite Hparse.
Qed.

Lemma allow_list_before_parsing_witness :
  Samples.parse_reference "busybox" = Err (errors_New "could not parse reference")
  /\ (Eff.run Samples.answer
        (Validate (H := Samples.library) (Samples.service ["busy"]) "busybox" ∅)
        (Samples.registry "0a" "0b" [Samples.x01])).1 = None.
Proof.
  split; [reflexivity|].
  apply (proj1 (allow_list_before_parsing (H := Samples.library) (Samples.service ["busy"])
                  "busybox" ∅ (errors_New "could not parse reference") eq_refl)
           eq_refl _ Samples.answer (Samples.registry "0a" "0b" [Samples.x01])).
Defined.
End Engine.

(** ** Claims on the admission webhook *)

Module Webhook.
Import Go Admission.

Section WithLibrary.
Context `{Library} `{Constants}.

(** The pod as [labelPod] returns it for a non-empty label. *)
Lemma labelPod_run {W : Type} (answer : forall c : Call, W -> Answer c * W)
    (result : ValidationResult) (pod : Pod) (world : W) :
  LabelForValidationResult result <> "" ->
  (Eff.run answer (labelPod result pod) world).1
  = {| Pod_Name := Pod_Name pod;
       Pod_Namespace := Pod_Namespace pod;
       Labels := Some (<[PodValidationLabel := LabelForValidationResult result]>
                         (default ∅ (Labels pod)));
       Pod_Rest := Pod_Rest pod |}.
Proof.
  intros Hne. unfold labelPod. unfold_prog. cbn.
  destruct (answer (LogInfof _ _) world) as [[] world'].
  destruct (String.eqb_spec (LabelForValidationResult result) "") as [E|_];
    [contradiction|].
  cbn. now destruct (Labels pod).
Qed.

(** The label a result other than [NoAction] maps to. *)
Lemma label_mapping (result : ValidationResult) :
  LabelForValidationResult result
  = match result with
    | NoAction => ""
    | Valid => ValidationStatusSuccess
    | Invalid => ValidationStatusReject
    | ServiceUnavailable | Unrecognized _ => ValidationStatusPending
    end.
Proof. now destruct result. Qed.

(** C4. For a request of kind Pod whose pod decodes, whose namespace
    is fetched and for which the validator returns [result] without
    error: with [NoAction] the request is allowed with the message
    "validation is not enabled for pod" and without a patch; with any
    other result, the label values being non-empty and the labeled pod
    serializing, the response is the patch from the raw object of the
    request to the pod whose label map, created when absent, maps the
    validation label to the success value for [Valid], the reject
    value for [Invalid] and the pending value for
    [ServiceUnavailable] and for any unrecognized result. *)
Theorem outcome_mapping {W : Type} (answer : forall c : Call, W -> Answer c * W)
    (w : DefaultingWebHook) (req : Request) (world w1 w2 : W)
    (pod : Pod) (ns : Namespace) (result : ValidationResult) :
  Kind req = PodType ->
  Decode req = Ok pod ->
  answer (client_Get (Pod_Namespace pod)) world = (Ok ns, w1) ->
  answer (ValidatePod pod ns) w1 = (Ok result, w2) ->
  let resp := (Eff.run answer (handle w req) world).1 in
  let label := match result with
               | NoAction => ""
               | Valid => ValidationStatusSuccess
               | Invalid => ValidationStatusReject
               | ServiceUnavailable | Unrecognized _ => ValidationStatusPending
               end in
  let labeledPod := {| Pod_Name := Pod_Name pod;
                       Pod_Namespace := Pod_Namespace pod;
                       Labels := Some (<[PodValidationLabel := label]>
                                         (default ∅ (Labels pod)));
                       Pod_Rest := Pod_Rest pod |} in
  (result = NoAction ->
     resp = admission_Allowed "validation is not enabled for pod"
     /\ Allowed resp = true /\ Patches resp = [] /\ PatchType resp = None)
  /\ (result <> NoAction ->
      ValidationStatusSuccess <> "" -> ValidationStatusReject <> "" ->
      ValidationStatusPending <> "" ->
      forall fBytes, json_Marshal labeledPod = Ok fBytes ->
        resp = PatchResponseFromRaw (Object_Raw req) fBytes
        /\ forall patches, CreatePatch (Object_Raw req) fBytes = Ok patches ->
             Allowed resp = true /\ Patches resp = patches).
Proof.
  intros Hkind Hdecode Hget Hvalidate resp label labeledPod.
  assert (Hrun : resp = match result with
                        | NoAction => admission_Allowed "validation is not enabled for pod"
                        | _ =>
                            match json_Marshal (Eff.run answer (labelPod result pod) w2).1 with
                            | Err err => admission_Errored StatusInternalServerError err
                            | Ok fBytes => PatchResponseFromRaw (Object_Raw req) fBytes
                            end
                        end).
  { subst resp. unfold handle. rewrite Hkind, Hdecode. unfold_prog. cbn.
    rewrite Hget. cbn. rewrite Hvalidate. cbn.
    destruct result; [reflexivity|..]; cbn;
      destruct (answer (LogInfof _ _) w2) as [[] w3]; cbn;
      destruct (String.eqb _ ""); cbn;
      (destruct (json_Marshal _); [|reflexivity]); cbn;
      now destruct (answer (LogInfof _ _) _). }
  split.
  - intros ->. rewrite Hrun. repeat split.
  - intros Hresult Hs Hr Hp fBytes Hmarshal.
    assert (Hlabel : LabelForValidationResult result <> "")
      by (destruct result; try assumption; contradiction).
    assert (Hpod : (Eff.run answer (labelPod result pod) w2).1 = labeledPod).
    { rewrite (labelPod_run answer result pod w2 Hlabel), label_mapping. reflexivity. }
    rewrite Hpod, Hmarshal in Hrun.
    assert (resp = PatchResponseFromRaw (Object_Raw req) fBytes) as ->
      by (destruct result; (assumption || contradiction)).
    split; [reflexivity|]. intros patches Hpatch.
    unfold PatchResponseFromRaw. rewrite Hpatch. split; reflexivity.
Qed.
End WithLibrary.

Lemma outcome_mapping_witness :
  let resp := (Eff.run Samples.cluster_answer_now
                 (handle (H := Samples.admission_library) (H0 := Samples.constants)
                    Samples.webhook Samples.podRequest)
                 {| Samples.verdict := Ok Valid; Samples.latency := Some 0%Z |}).1 in
  Allowed resp = true
  /\ Patches resp = [ {| Operation := "add"; Path := "/metadata/labels"; Value := "" |} ].
Proof.
  intros resp.
  refine (proj2 (proj2 (outcome_mapping (H := Samples.admission_library)
            (H0 := Samples.constants) Samples.cluster_answer_now
            Samples.webhook Samples.podRequest
            {| Samples.verdict := Ok Valid; Samples.latency := Some 0%Z |} _ _
            _ Samples.defaultNamespace Valid eq_refl eq_refl eq_refl eq_refl)
            _ _ _ _ [] eq_refl) _ eq_refl);
    discriminate.
Defined.

(** The response of the timeout branch, whatever the cause. *)
Lemma timeout_response_refers_to_duration `{Library} (w : DefaultingWebHook)
    (cause : error) :
  let resp := admission_Errored StatusRequestTimeout
                (errors_Wrap cause
                   ("request exceeded desired timeout: " ++ Duration_String (timeout w))) in
  Allowed resp = false /\ Code resp = 408%Z
  /\ Contains (Message resp) (Duration_String (timeout w)) = true.
Proof.
  cbn. repeat split. rewrite SplitFacts.str_app_assoc. apply GoFacts.Contains_app.
Qed.

(** The cause the derived context reports is the deadline or the error of
    the caller's context. *)
Lemma ctxTimeout_cause (timeout : Z) (parent : Parent) (parent_first : bool) :
  exists cause,
    ctxTimeout_Err case_ctxDone timeout parent parent_first = Some cause
    /\ (cause = DeadlineExceeded \/ exists instant, parent = parent_done instant cause).
Proof.
  destruct parent as [|instant err]; cbn.
  - eexists. split; [reflexivity | now left].
  - destruct (Z.ltb instant timeout); [|destruct (Z.ltb timeout instant);
                                         [|destruct parent_first]];
      eexists; (split; [reflexivity|]); first [now left | right; now exists instant].
Qed.



End Webhook.

(** ** The order and the arguments of the calls *)

Module Flow.
Import Go Validate Observe.

(** Runs one step of a program against [answer]: takes the answer of the
    next call apart, or the value a [match] of the program looks at. *)
Ltac run_step answer :=
  match goal with
  | |- context [answer ?c ?w] =>
      let x := fresh "x" in
      let w' := fresh "w" in
      destruct (answer c w) as [x w'] eqn:?; cbn in x
  | |- context [match ?x with _ => _ end] => destruct x eqn:?
  end; cbn.

Section WithWorld.
Context {W : Type} (answer : forall c : Call, W -> Answer c * W).

(** The calls of [getNotaryImageDigestHash]: the client is built for
    the repository name of the reference with the configuration of the
    service; only when that succeeds is the identifier of the reference
    looked up, on the client that was returned.  Each of the two calls
    lies between the start and the end of its duration log. *)
Theorem notary_calls (s : notaryService) (ref : Reference) (w : W) :
  let made := [LogStartTime "request to notary (NewRepoClient)";
               NewRepoClient (Name (Context ref)) (NotaryConfig_ (ServiceConfig_ s));
               LogEndTime "request to notary (NewRepoClient)"] in
  let t := Eff.trace answer (getNotaryImageDigestHash s ref) w in
  (exists err, In (existT (NewRepoClient (Name (Context ref))
                             (NotaryConfig_ (ServiceConfig_ s))) (Err err)) t
               /\ calls_of t = made)
  \/ (exists c, In (existT (NewRepoClient (Name (Context ref))
                              (NotaryConfig_ (ServiceConfig_ s))) (Ok c)) t
                /\ calls_of t
                   = (made ++ [LogStartTime "request to notary (GetTargetByName)";
                               GetTargetByName c (Identifier ref);
                               LogEndTime "request to notary (GetTargetByName)"])%list).
Proof.
  unfold getNotaryImageDigestHash. unfold_prog. cbn.
  do 3 run_step answer. destruct x0 as [c|err]; cbn.
  - right. exists c. do 3 run_step answer.
    split; [right; left; reflexivity|]. now destruct x2.
  - left. exists err. split; [right; left; reflexivity | reflexivity].
Qed.

Context `{Library}.

(** After the descriptor, at most one fetch, with the same options. *)
Lemma digest_fetches (ref : Reference) (options : list Option) (d : Descriptor) (w : W) :
  fetches ref options (calls_of (Eff.trace answer (digestByMediaType ref options d) w)).
Proof.
  unfold digestByMediaType, getIndexDigestHash, getImageDigestHash, fetches.
  unfold_prog. cbn.
  destruct (IsIndex (MediaType d)); [|destruct (IsImage (MediaType d))]; cbn.
  - right; left. run_step answer. repeat run_step answer; reflexivity.
  - right; right. run_step answer. repeat run_step answer; reflexivity.
  - left. reflexivity.
Qed.

(** The calls of [getRepositoryDigestHash].  The descriptor is first
    fetched without options.  When that succeeds, the credentials play no
    part and the digests are fetched without options.  When it fails, the
    run ends there unless the credentials hold an entry for the registry
    host of the reference that [parseCredentials] accepts; then the
    descriptor is fetched again, and every call from there on carries the
    authenticator made from that entry, and nothing else. *)
Theorem registry_calls (ref : Reference) (imagePullCredentials : gmap string AuthConfig)
    (w : W) :
  let t := calls_of (Eff.trace answer (getRepositoryDigestHash ref imagePullCredentials) w) in
  let entry := imagePullCredentials !! RegistryStr (Context ref) in
  let anonymous := (answer (remote_Get ref []) w).1 in
  (exists d rest, anonymous = Ok d /\ t = remote_Get ref [] :: rest /\ fetches ref [] rest)
  \/ (exists err, anonymous = Err err /\ t = [remote_Get ref []]
                  /\ (entry = None
                      \/ exists c e, entry = Some c /\ parseCredentials c = Err e))
  \/ (exists err c auth rest,
        anonymous = Err err /\ entry = Some c /\ parseCredentials c = Ok auth
        /\ t = remote_Get ref [] :: remote_Get ref [WithAuth auth] :: rest
        /\ fetches ref [WithAuth auth] rest).
Proof.
  unfold getRepositoryDigestHash. unfold_prog. cbn.
  destruct (answer (remote_Get ref []) w) as [got w1]; cbn in got |- *.
  destruct got as [d|err]; cbn.
  - left. exists d, (calls_of (Eff.trace answer (digestByMediaType ref [] d) w1)).
    repeat split. apply digest_fetches.
  - right. destruct (imagePullCredentials !! RegistryStr (Context ref)) as [c|] eqn:Hentry; cbn.
    + destruct (parseCredentials c) as [auth|e] eqn:Hparse; cbn.
      * right. exists err, c, auth.
        destruct (answer (remote_Get ref [WithAuth auth]) w1) as [again w2];
          cbn in again |- *.
        destruct again as [d|err']; cbn.
        -- exists (calls_of (Eff.trace answer (digestByMediaType ref [WithAuth auth] d) w2)).
           repeat split; [assumption | apply digest_fetches].
        -- exists []. repeat split; [assumption | now left].
      * left. exists err. repeat split. right. now exists c, e.
    + left. exists err. repeat split. now left.
Qed.

End WithWorld.
End Flow.

(** ** Results of the registry fetch *)

Module Registry.
Import Go Validate Observe.

Section WithWorld.
Context `{Library} {W : Type} (answer : forall c : Call, W -> Answer c * W).

(** Closes a goal [r = Err e -> P] after the run has been taken apart. *)
Ltac by_result :=
  let E := fresh "E" in
  intros E; try discriminate E; try (injection E as <-); try (injection E as <- <-);
  cbn; auto.

(** The two digest fetches fail with unknown results only. *)
Lemma digest_errors_unknown (ref : Reference) (options : list Option) (w : W) (e : error) :
  ((Eff.run answer (getIndexDigestHash ref options) w).1 = Err e ->
   code_of e = Some UnknownResult)
  /\ ((Eff.run answer (getImageDigestHash ref options) w).1 = Err e ->
      code_of e = Some UnknownResult).
Proof.
  split; unfold getIndexDigestHash, getImageDigestHash; unfold_prog; cbn;
    Flow.run_step answer; repeat Flow.run_step answer; by_result.
Qed.

(** On success the primary digest is not nil, and the legacy manifest
    digest is nil exactly for an index. *)
Theorem digest_shape (ref : Reference) (options : list Option) (d : Descriptor) (w : W)
    (digest manifest : bytes) :
  (Eff.run answer (digestByMediaType ref options d) w).1 = Ok (digest, manifest) ->
  digest <> None /\ (manifest = None <-> IsIndex (MediaType d) = true).
Proof.
  unfold digestByMediaType, getIndexDigestHash, getImageDigestHash; unfold_prog; cbn.
  destruct (IsIndex (MediaType d)); [|destruct (IsImage (MediaType d))]; cbn;
    try (Flow.run_step answer; repeat Flow.run_step answer);
    intros E; try discriminate E; injection E as <- <-;
    (split; [discriminate | split; (reflexivity || discriminate)]).
Qed.

(** A failure of [digestByMediaType] is an unknown result, or the
    validation failure for a descriptor that is neither index nor image. *)
Lemma media_errors (ref : Reference) (options : list Option) (d : Descriptor) (w : W)
    (e : error) :
  (Eff.run answer (digestByMediaType ref options d) w).1 = Err e ->
  code_of e = Some UnknownResult
  \/ (IsIndex (MediaType d) = false /\ IsImage (MediaType d) = false
      /\ e = pkg_Err ValidationFailed (errors_New "not an image or image list")).
Proof.
  unfold digestByMediaType. unfold_prog.
  destruct (IsIndex (MediaType d)) eqn:Hi; [|destruct (IsImage (MediaType d)) eqn:Hm].
  - rewrite EffFacts.run_bind.
    destruct (Eff.run answer (getIndexDigestHash ref options) w) as [[dg|e'] w'] eqn:Hr;
      cbn; intros E; [discriminate E|]. injection E as <-. left.
    apply (proj1 (digest_errors_unknown ref options w e')). now rewrite Hr.
  - rewrite EffFacts.run_bind.
    destruct (Eff.run answer (getImageDigestHash ref options) w) as [[[dg m]|e'] w'] eqn:Hr;
      cbn; intros E; [discriminate E|]. injection E as <-. left.
    apply (proj2 (digest_errors_unknown ref options w e')). now rewrite Hr.
  - cbn. intros E. injection E as <-. right. auto.
Qed.

(** When the anonymous descriptor fetch succeeds, the credentials are
    not looked at: any two credential maps give the same result, the same
    final world and the same calls. *)
Theorem public_image_ignores_credentials (ref : Reference)
    (credentials credentials' : gmap string AuthConfig) (w : W) (d : Descriptor) :
  (answer (remote_Get ref []) w).1 = Ok d ->
  Eff.run answer (getRepositoryDigestHash ref credentials) w
  = Eff.run answer (getRepositoryDigestHash ref credentials') w
  /\ Eff.trace answer (getRepositoryDigestHash ref credentials) w
     = Eff.trace answer (getRepositoryDigestHash ref credentials') w.
Proof.
  intros Hpublic. unfold getRepositoryDigestHash. unfold_prog. cbn.
  destruct (answer (remote_Get ref []) w) as [got w1]. cbn in Hpublic. subst got.
  split; reflexivity.
Qed.

(** When the anonymous fetch fails and the entry for the registry host is
    one that [parseCredentials] refuses, the error of [parseCredentials],
    a validation failure, is the result, and the registry is not asked a
    second time. *)
Theorem malformed_credentials_fail_validation (ref : Reference)
    (imagePullCredentials : gmap string AuthConfig) (w : W)
    (err : error) (c : AuthConfig) (e : error) :
  (answer (remote_Get ref []) w).1 = Err err ->
  imagePullCredentials !! RegistryStr (Context ref) = Some c ->
  parseCredentials c = Err e ->
  (Eff.run answer (getRepositoryDigestHash ref imagePullCredentials) w).1 = Err e
  /\ code_of e = Some ValidationFailed
  /\ calls_of (Eff.trace answer (getRepositoryDigestHash ref imagePullCredentials) w)
     = [remote_Get ref []].
Proof.
  intros Hfail Hentry Hparse. unfold getRepositoryDigestHash. unfold_prog. cbn.
  destruct (answer (remote_Get ref []) w) as [got w1]. cbn in Hfail. subst got.
  rewrite Hentry. cbn. rewrite Hparse. cbn.
  repeat split. exact (Credentials.errors_are_validation_failures c e Hparse).
Qed.

(** When the anonymous fetch fails and the fetch with the authenticator
    fails too, the result is an unknown result that wraps the error of
    the second fetch; the error of the anonymous fetch is dropped. *)
Theorem retry_failure_is_unknown (ref : Reference)
    (imagePullCredentials : gmap string AuthConfig) (w : W)
    (err err' : error) (c : AuthConfig) (auth : Authenticator) :
  (answer (remote_Get ref []) w).1 = Err err ->
  imagePullCredentials !! RegistryStr (Context ref) = Some c ->
  parseCredentials c = Ok auth ->
  (answer (remote_Get ref [WithAuth auth]) (answer (remote_Get ref []) w).2).1 = Err err' ->
  (Eff.run answer (getRepositoryDigestHash ref imagePullCredentials) w).1
  = Err (pkg_Err UnknownResult (errors_Wrap err' "get image descriptor")).
Proof.
  intros Hfail Hentry Hparse Hretry. unfold getRepositoryDigestHash. unfold_prog. cbn.
  destruct (answer (remote_Get ref []) w) as [got w1]. cbn in Hfail, Hretry. subst got.
  rewrite Hentry. cbn. rewrite Hparse. cbn.
  destruct (answer (remote_Get ref [WithAuth auth]) w1) as [again w2].
  cbn in Hretry. subst again. reflexivity.
Qed.

(** Every error of [getRepositoryDigestHash] has a class. *)
Lemma registry_errors_have_class (ref : Reference)
    (imagePullCredentials : gmap string AuthConfig) (w : W) (e : error) :
  (Eff.run answer (getRepositoryDigestHash ref imagePullCredentials) w).1 = Err e ->
  code_of e = Some ValidationFailed \/ code_of e = Some UnknownResult.
Proof.
  unfold getRepositoryDigestHash. unfold_prog. cbn.
  destruct (answer (remote_Get ref []) w) as [got w1]; cbn in got |- *.
  destruct got as [d|err]; cbn.
  - intros E. destruct (media_errors ref [] d w1 e E) as [Hu | (_ & _ & ->)]; auto.
  - destruct (imagePullCredentials !! RegistryStr (Context ref)) as [c|]; cbn.
    + destruct (parseCredentials c) as [auth|e'] eqn:Hparse; cbn.
      * destruct (answer (remote_Get ref [WithAuth auth]) w1) as [again w2];
          cbn in again |- *.
        destruct again as [d|err']; cbn.
        -- intros E.
           destruct (media_errors ref [WithAuth auth] d w2 e E) as [Hu | (_ & _ & ->)]; auto.
        -- intros E. injection E as <-. now right.
      * intros E. injection E as <-. left.
        exact (Credentials.errors_are_validation_failures c e' Hparse).
    + intros E. injection E as <-. now right.
Qed.


End WithWorld.

Lemma digest_shape_witness :
  Some [Samples.x0a] <> None
  /\ (Some [Samples.x0b] = None
      <-> IsIndex (MediaType {| MediaType := Samples.manifestV2 |}) = true).
Proof.
  apply (digest_shape (H := Samples.library) Samples.answer Samples.appRef []
           {| MediaType := Samples.manifestV2 |} (Samples.registry "0a" "0b" [Samples.x0a])).
  reflexivity.
Defined.

Lemma public_image_ignores_credentials_witness :
  Eff.run Samples.answer
    (getRepositoryDigestHash (H := Samples.library) Samples.appRef ∅)
    (Samples.registry "0a" "0b" [Samples.x0a])
  = Eff.run Samples.answer
      (getRepositoryDigestHash (H := Samples.library) Samples.appRef
         {[ Samples.registryHost := Samples.authOnly "bm9wYWly" ]})
      (Samples.registry "0a" "0b" [Samples.x0a]).
Proof.
  apply (public_image_ignores_credentials (H := Samples.library) Samples.answer
           Samples.appRef ∅ {[ Samples.registryHost := Samples.authOnly "bm9wYWly" ]}
           (Samples.registry "0a" "0b" [Samples.x0a]) {| MediaType := Samples.manifestV2 |}).
  reflexivity.
Defined.

Lemma malformed_credentials_fail_validation_witness :
  (Eff.run Samples.answer
     (getRepositoryDigestHash (H := Samples.library) Samples.appRef
        {[ Samples.registryHost := Samples.authOnly "bm9wYWly" ]})
     Samples.private).1
  = Err (pkg_Err ValidationFailed
           (errors_New "invalid auth format, expected username:password form")).
Proof.
  apply (malformed_credentials_fail_validation (H := Samples.library) Samples.answer
           Samples.appRef {[ Samples.registryHost := Samples.authOnly "bm9wYWly" ]}
           Samples.private (errors_New "UNAUTHORIZED: authentication required")
           (Samples.authOnly "bm9wYWly")).
  - reflexivity.
  - reflexivity.
  - reflexivity.
Defined.

Lemma retry_failure_is_unknown_witness :
  (Eff.run Samples.answer
     (getRepositoryDigestHash (H := Samples.library) Samples.appRef
        {[ Samples.registryHost := Samples.authOnly "dTpw" ]})
     Samples.locked).1
  = Err (pkg_Err UnknownResult
           (errors_Wrap (errors_New "DENIED: requested access to the resource is denied")
              "get image descriptor")).
Proof.
  apply (retry_failure_is_unknown (H := Samples.library) Samples.answer
           Samples.appRef {[ Samples.registryHost := Samples.authOnly "dTpw" ]}
           Samples.locked (errors_New "UNAUTHORIZED: authentication required")
           (errors_New "DENIED: requested access to the resource is denied")
           (Samples.authOnly "dTpw") (Basic "u" "p")).
  - reflexivity.
  - reflexivity.
  - reflexivity.
  - reflexivity.
Defined.

End Registry.

(** ** The flow of the validation engine *)

Module EngineFlow.
Import Go Validate Observe.

Lemma timers_app (open : list string) (calls calls' : list Call) :
  timers open (calls ++ calls') = timers open calls ≫= fun open' => timers open' calls'.
Proof.
  revert open; induction calls as [|c calls IH]; intros open; [reflexivity|].
  destruct c; cbn; try apply IH.
  destruct open as [|msg' open']; [reflexivity|].
  destruct (String.eqb msg msg'); [apply IH | reflexivity].
Qed.

Section WithWorld.
Context `{Library} {W : Type} (answer : forall c : Call, W -> Answer c * W).

(** The logged lookup is the lookup between two log lines. *)
Lemma logged_notary (s : notaryService) (ref : Reference) (w : W) :
  let w' := (answer (LogStartTime "request to notary") w).2 in
  (Eff.run answer (loggedGetNotaryImageDigestHash s ref) w).1
  = (Eff.run answer (getNotaryImageDigestHash s ref) w').1
  /\ calls_of (Eff.trace answer (loggedGetNotaryImageDigestHash s ref) w)
     = (LogStartTime "request to notary"
        :: calls_of (Eff.trace answer (getNotaryImageDigestHash s ref) w')
        ++ [LogEndTime "request to notary"])%list.
Proof.
  unfold loggedGetNotaryImageDigestHash, calls_of. unfold_prog.
  cbn -[getNotaryImageDigestHash].
  destruct (answer (LogStartTime "request to notary") w) as [[] w1].
  cbn -[getNotaryImageDigestHash].
  rewrite EffFacts.run_bind, EffFacts.trace_bind, map_app.
  cbn -[getNotaryImageDigestHash].
  destruct (answer (LogEndTime "request to notary") _) as [[] w2]. split; reflexivity.
Qed.

(** The logged registry fetch is the fetch between two log lines. *)
Lemma logged_registry (ref : Reference) (imagePullCredentials : gmap string AuthConfig)
    (w : W) :
  let w' := (answer (LogStartTime "request to image registry") w).2 in
  (Eff.run answer (loggedGetRepositoryDigestHash ref imagePullCredentials) w).1
  = (Eff.run answer (getRepositoryDigestHash ref imagePullCredentials) w').1
  /\ calls_of (Eff.trace answer (loggedGetRepositoryDigestHash ref imagePullCredentials) w)
     = (LogStartTime "request to image registry"
        :: calls_of (Eff.trace answer (getRepositoryDigestHash ref imagePullCredentials) w')
        ++ [LogEndTime "request to image registry"])%list.
Proof.
  unfold loggedGetRepositoryDigestHash, calls_of. unfold_prog.
  cbn -[getRepositoryDigestHash].
  destruct (answer (LogStartTime "request to image registry") w) as [[] w1].
  cbn -[getRepositoryDigestHash].
  rewrite EffFacts.run_bind, EffFacts.trace_bind, map_app.
  cbn -[getRepositoryDigestHash].
  destruct (answer (LogEndTime "request to image registry") _) as [[] w2].
  split; reflexivity.
Qed.

(** What the calls of the lookup are, whatever the world. *)
Lemma notary_call_list (s : notaryService) (ref : Reference) (w : W) :
  let made := [LogStartTime "request to notary (NewRepoClient)";
               NewRepoClient (Name (Context ref)) (NotaryConfig_ (ServiceConfig_ s));
               LogEndTime "request to notary (NewRepoClient)"] in
  let t := calls_of (Eff.trace answer (getNotaryImageDigestHash s ref) w) in
  t = made
  \/ exists c, t = (made ++ [LogStartTime "request to notary (GetTargetByName)";
                             GetTargetByName c (Identifier ref);
                             LogEndTime "request to notary (GetTargetByName)"])%list.
Proof.
  unfold getNotaryImageDigestHash. unfold_prog. cbn.
  do 3 Flow.run_step answer. destruct x0 as [c|err]; cbn; [|now left].
  right. exists c. do 3 Flow.run_step answer. now destruct x2.
Qed.

(** What the calls of the registry fetch are, whatever the world. *)
Lemma registry_call_list (ref : Reference) (imagePullCredentials : gmap string AuthConfig)
    (w : W) :
  let t := calls_of (Eff.trace answer (getRepositoryDigestHash ref imagePullCredentials) w) in
  exists retry rest options,
    t = (remote_Get ref [] :: retry ++ rest)%list
    /\ (retry = [] \/ retry = [remote_Get ref options])
    /\ fetches ref options rest.
Proof.
  unfold getRepositoryDigestHash. unfold_prog. cbn.
  destruct (answer (remote_Get ref []) w) as [got w1]; cbn in got |- *.
  destruct got as [d|err]; cbn.
  { exists [], (calls_of (Eff.trace answer (digestByMediaType ref [] d) w1)), [].
    repeat split; [now left | apply Flow.digest_fetches]. }
  destruct (imagePullCredentials !! RegistryStr (Context ref)) as [c|]; cbn.
  2: { exists [], [], []. repeat split; now left. }
  destruct (parseCredentials c) as [auth|e]; cbn.
  2: { exists [], [], []. repeat split; now left. }
  destruct (answer (remote_Get ref [WithAuth auth]) w1) as [again w2]; cbn in again |- *.
  destruct again as [d|err']; cbn.
  - exists [remote_Get ref [WithAuth auth]],
      (calls_of (Eff.trace answer (digestByMediaType ref [WithAuth auth] d) w2)),
      [WithAuth auth].
    repeat split; [now right | apply Flow.digest_fetches].
  - exists [remote_Get ref [WithAuth auth]], [], [WithAuth auth].
    repeat split; [now right | now left].
Qed.

(** The duration logs of the lookup and of the registry fetch are
    closed in the order they were opened. *)
Lemma notary_timers (s : notaryService) (ref : Reference) (w : W) (open : list string) :
  timers open (calls_of (Eff.trace answer (loggedGetNotaryImageDigestHash s ref) w))
  = Some open.
Proof.
  rewrite (proj2 (logged_notary s ref w)).
  destruct (notary_call_list s ref (answer (LogStartTime "request to notary") w).2)
    as [-> | [c ->]]; reflexivity.
Qed.

Lemma registry_timers (ref : Reference) (imagePullCredentials : gmap string AuthConfig)
    (w : W) (open : list string) :
  timers open
    (calls_of (Eff.trace answer (loggedGetRepositoryDigestHash ref imagePullCredentials) w))
  = Some open.
Proof.
  rewrite (proj2 (logged_registry ref imagePullCredentials w)).
  destruct (registry_call_list ref imagePullCredentials
              (answer (LogStartTime "request to image registry") w).2)
    as (retry & rest & options & -> & [-> | ->] & [-> | [-> | ->]]);
    reflexivity.
Qed.

(** Neither fetch logs a warning, and the lookup does not call the
    registry. *)
Lemma notary_quiet (s : notaryService) (ref : Reference) (w : W) :
  Forall (fun c => options_of c = None /\ forall msg, c <> LogWarn msg)
         (calls_of (Eff.trace answer (loggedGetNotaryImageDigestHash s ref) w)).
Proof.
  rewrite (proj2 (logged_notary s ref w)).
  destruct (notary_call_list s ref (answer (LogStartTime "request to notary") w).2)
    as [-> | [c ->]]; cbn; repeat constructor; discriminate.
Qed.

Lemma registry_quiet (ref : Reference) (imagePullCredentials : gmap string AuthConfig)
    (w : W) :
  Forall (fun c => forall msg, c <> LogWarn msg)
    (calls_of (Eff.trace answer (loggedGetRepositoryDigestHash ref imagePullCredentials) w)).
Proof.
  rewrite (proj2 (logged_registry ref imagePullCredentials w)).
  destruct (registry_call_list ref imagePullCredentials
              (answer (LogStartTime "request to image registry") w).2)
    as (retry & rest & options & -> & [-> | ->] & [-> | [-> | ->]]);
    cbn; repeat constructor; discriminate.
Qed.

(** The calls of [Validate] for an image that is not allow-listed and
    parses: those of the lookup, then, if the lookup gave a digest, those
    of the registry fetch, then, if the fetch gave digests, the warning of
    the legacy comparison when that is what accepts the image. *)
Lemma Validate_calls (s : notaryService) (image : string)
    (imagePullCredentials : gmap string AuthConfig) (ref : Reference) (w0 : W) :
  isImageAllowed s image = false ->
  ParseReference image = Ok ref ->
  calls_of (Eff.trace answer (Validate s image imagePullCredentials) w0)
  = (calls_of (Eff.trace answer (loggedGetNotaryImageDigestHash s ref) w0)
     ++ match Eff.run answer (loggedGetNotaryImageDigestHash s ref) w0 with
        | (Err _, _) => []
        | (Ok expected, w1) =>
            calls_of (Eff.trace answer
                        (loggedGetRepositoryDigestHash ref imagePullCredentials) w1)
            ++ match Eff.run answer
                       (loggedGetRepositoryDigestHash ref imagePullCredentials) w1 with
               | (Err _, _) => []
               | (Ok (shaImage, shaManifest), _) =>
                   verdict_log expected shaImage shaManifest
               end
        end)%list.
Proof.
  intros Hallowed Hparse. unfold Validate, calls_of, verdict_log.
  rewrite Hallowed, Hparse. unfold_prog.
  rewrite EffFacts.trace_bind, map_app. f_equal.
  destruct (Eff.run answer (loggedGetNotaryImageDigestHash s ref) w0)
    as [[expected|e] w1]; cbn [fst snd]; [|reflexivity].
  rewrite EffFacts.trace_bind, map_app. f_equal.
  destruct (Eff.run answer (loggedGetRepositoryDigestHash ref imagePullCredentials) w1)
    as [[[shaImage shaManifest]|e] w2]; cbn [fst snd]; [|reflexivity].
  rewrite !GoFacts.ConstantTimeCompare_eqb.
  destruct (bool_decide (bytes_of shaImage = bytes_of expected)); [reflexivity|].
  destruct (negb (is_nil shaManifest) && bool_decide (bytes_of shaManifest = bytes_of expected));
    [|reflexivity].
  cbn. now destruct (answer (LogWarn _) w2).
Qed.

(** When the lookup in the trust authority fails, [Validate] returns
    the error of the lookup as it is and the registry is not called. *)
Theorem trust_failure_stops_validation (s : notaryService) (image : string)
    (imagePullCredentials : gmap string AuthConfig) (ref : Reference) (w0 w1 : W)
    (e : error) :
  isImageAllowed s image = false ->
  ParseReference image = Ok ref ->
  Eff.run answer (loggedGetNotaryImageDigestHash s ref) w0 = (Err e, w1) ->
  (Eff.run answer (Validate s image imagePullCredentials) w0).1 = Some e
  /\ Forall (fun c => options_of c = None)
            (calls_of (Eff.trace answer (Validate s image imagePullCredentials) w0)).
Proof.
  intros Hallowed Hparse Hnotary. split.
  - unfold Validate. rewrite Hallowed, Hparse. unfold_prog.
    now rewrite EffFacts.run_bind, Hnotary.
  - rewrite (Validate_calls s image imagePullCredentials ref w0 Hallowed Hparse), Hnotary.
    rewrite app_nil_r.
    apply List.Forall_forall. intros c Hin.
    pose proof (notary_quiet s ref w0) as Hq. rewrite List.Forall_forall in Hq.
    exact (proj1 (Hq c Hin)).
Qed.

(** Every error of the lookup is classified. *)
Lemma notary_errors_classified (s : notaryService) (ref : Reference) (w : W) (e : error) :
  (Eff.run answer (getNotaryImageDigestHash s ref) w).1 = Err e ->
  code_of e = Some ValidationFailed \/ code_of e = Some UnknownResult.
Proof.
  unfold getNotaryImageDigestHash, targetDigest, parseNotaryErr. unfold_prog. cbn.
  Flow.run_step answer. repeat Flow.run_step answer;
    intros E; try discriminate E; injection E as <-; cbn; auto.
Qed.

(** [Validate] returns no error without a class: each of its errors is a
    validation failure or an unknown result. *)
Theorem Validate_errors_classified (s : notaryService) (image : string)
    (imagePullCredentials : gmap string AuthConfig) (w : W) (e : error) :
  (Eff.run answer (Validate s image imagePullCredentials) w).1 = Some e ->
  code_of e = Some ValidationFailed \/ code_of e = Some UnknownResult.
Proof.
  unfold Validate.
  destruct (isImageAllowed s image).
  { unfold_prog. cbn. destruct (answer (LogInfo _) w). discriminate. }
  destruct (ParseReference image) as [ref|err].
  2: { cbn. intros E. injection E as <-. now left. }
  unfold_prog. rewrite EffFacts.run_bind.
  pose proof (proj1 (logged_notary s ref w)) as Hn. cbn zeta in Hn.
  destruct (Eff.run answer (loggedGetNotaryImageDigestHash s ref) w)
    as [[expected|e1] w1]; cbn [fst snd] in *.
  2: { intros E. injection E as <-. symmetry in Hn.
       exact (notary_errors_classified s ref _ e1 Hn). }
  rewrite EffFacts.run_bind.
  pose proof (proj1 (logged_registry ref imagePullCredentials w1)) as Hr. cbn zeta in Hr.
  destruct (Eff.run answer (loggedGetRepositoryDigestHash ref imagePullCredentials) w1)
    as [[[shaImage shaManifest]|e2] w2]; cbn [fst snd] in *.
  2: { intros E. injection E as <-. symmetry in Hr.
       exact (Registry.registry_errors_have_class answer ref imagePullCredentials _ e2 Hr). }
  destruct (Z.eqb (ConstantTimeCompare shaImage expected) 1); [discriminate|].
  destruct (negb (is_nil shaManifest)
            && Z.eqb (ConstantTimeCompare shaManifest expected) 1); cbn.
  - destruct (answer (LogWarn _) w2). discriminate.
  - intros E. injection E as <-. now left.
Qed.

(** The deprecation warning is logged exactly when the image is accepted
    by the legacy manifest digest: the primary digest differs from the
    expected one, and the manifest digest is not nil and equals it. *)
Theorem deprecation_warning_iff_fallback (s : notaryService) (image : string)
    (imagePullCredentials : gmap string AuthConfig) (ref : Reference)
    (expected shaImage shaManifest : bytes) (w0 w1 w2 : W) :
  isImageAllowed s image = false ->
  ParseReference image = Ok ref ->
  Eff.run answer (loggedGetNotaryImageDigestHash s ref) w0 = (Ok expected, w1) ->
  Eff.run answer (loggedGetRepositoryDigestHash ref imagePullCredentials) w1
  = (Ok (shaImage, shaManifest), w2) ->
  In (LogWarn "deprecated: manifest hash was used for verification")
     (calls_of (Eff.trace answer (Validate s image imagePullCredentials) w0))
  <-> bytes_of shaImage <> bytes_of expected
      /\ shaManifest <> None /\ bytes_of shaManifest = bytes_of expected.
Proof.
  intros Hallowed Hparse Hnotary Hrepo.
  rewrite (Validate_calls s image imagePullCredentials ref w0 Hallowed Hparse).
  rewrite Hnotary, Hrepo. rewrite !in_app_iff.
  assert (Hn : ~ In (LogWarn "deprecated: manifest hash was used for verification")
                 (calls_of (Eff.trace answer (loggedGetNotaryImageDigestHash s ref) w0))).
  { intros Hin. pose proof (notary_quiet s ref w0) as Hq.
    rewrite List.Forall_forall in Hq.
    exact (proj2 (Hq _ Hin) _ eq_refl). }
  assert (Hr : ~ In (LogWarn "deprecated: manifest hash was used for verification")
                 (calls_of (Eff.trace answer
                              (loggedGetRepositoryDigestHash ref imagePullCredentials) w1))).
  { intros Hin. pose proof (registry_quiet ref imagePullCredentials w1) as Hq.
    rewrite List.Forall_forall in Hq.
    exact (Hq _ Hin _ eq_refl). }
  unfold verdict_log.
  destruct (decide (bytes_of shaImage = bytes_of expected)) as [Ei|Ei].
  - rewrite (bool_decide_eq_true_2 _ Ei). cbn. tauto.
  - rewrite (bool_decide_eq_false_2 _ Ei).
    destruct shaManifest as [m|]; cbn [is_nil negb andb].
    + destruct (decide (bytes_of (Some m) = bytes_of expected)) as [Em|Em].
      * rewrite (bool_decide_eq_true_2 _ Em). cbn. split; [|tauto].
        intros _. repeat split; [assumption | discriminate | assumption].
      * rewrite (bool_decide_eq_false_2 _ Em). cbn. tauto.
    + cbn. split; [tauto|]. now intros (_ & Hnil & _).
Qed.

(** On every path of [Validate], allowed or not, failing or not, each
    duration log that is started is ended, in the order of a stack, and
    none is left open. *)
Theorem duration_logs_balanced (s : notaryService) (image : string)
    (imagePullCredentials : gmap string AuthConfig) (w : W) :
  timers [] (calls_of (Eff.trace answer (Validate s image imagePullCredentials) w))
  = Some [].
Proof.
  destruct (isImageAllowed s image) eqn:Hallowed.
  { unfold Validate. rewrite Hallowed. unfold_prog. cbn.
    now destruct (answer (LogInfo _) w). }
  destruct (ParseReference image) as [ref|err] eqn:Hparse.
  2: { unfold Validate. now rewrite Hallowed, Hparse. }
  rewrite (Validate_calls s image imagePullCredentials ref w Hallowed Hparse).
  rewrite timers_app, notary_timers. cbn [mbind option_bind].
  destruct (Eff.run answer (loggedGetNotaryImageDigestHash s ref) w)
    as [[expected|e1] w1]; [|reflexivity].
  rewrite timers_app, registry_timers. cbn [mbind option_bind].
  destruct (Eff.run answer (loggedGetRepositoryDigestHash ref imagePullCredentials) w1)
    as [[[shaImage shaManifest]|e2] w2]; [|reflexivity].
  unfold verdict_log.
  destruct (bool_decide _); [reflexivity|]. now destruct (_ && _).
Qed.

End WithWorld.

Lemma trust_failure_stops_validation_witness :
  (Eff.run Samples.answer
     (Validate (H := Samples.library) (Samples.service []) "registry.io/app:v1" ∅)
     (Samples.notary (Ok 7) (Err Samples.noTrustData))).1
  = Some (pkg_Err ValidationFailed Samples.noTrustData)
  /\ Forall (fun c => options_of c = None)
       (calls_of (Eff.trace Samples.answer
                    (Validate (H := Samples.library) (Samples.service [])
                       "registry.io/app:v1" ∅)
                    (Samples.notary (Ok 7) (Err Samples.noTrustData)))).
Proof.
  apply (trust_failure_stops_validation (H := Samples.library) Samples.answer
           (Samples.service []) "registry.io/app:v1" ∅ Samples.appRef
           (Samples.notary (Ok 7) (Err Samples.noTrustData))
           (Samples.notary (Ok 7) (Err Samples.noTrustData))).
  - reflexivity.
  - reflexivity.
  - reflexivity.
Defined.

Lemma Validate_errors_classified_witness :
  code_of (pkg_Err ValidationFailed (errors_New "unexpected image hash value"))
  = Some ValidationFailed
  \/ code_of (pkg_Err ValidationFailed (errors_New "unexpected image hash value"))
     = Some UnknownResult.
Proof.
  apply (Validate_errors_classified (H := Samples.library) Samples.answer
           (Samples.service []) "registry.io/app:v1" ∅
           (Samples.registry "0a" "0b" [Samples.x01])).
  reflexivity.
Defined.

Lemma deprecation_warning_iff_fallback_witness :
  In (LogWarn "deprecated: manifest hash was used for verification")
     (calls_of (Eff.trace Samples.answer
                  (Validate (H := Samples.library) (Samples.service [])
                     "registry.io/app:v1" ∅)
                  (Samples.registry "0a" "0b" [Samples.x0b]))).
Proof.
  refine (proj2 (deprecation_warning_iff_fallback (H := Samples.library) Samples.answer
            (Samples.service []) "registry.io/app:v1" ∅ Samples.appRef
            (Some [Samples.x0b]) (Some [Samples.x0a]) (Some [Samples.x0b])
            (Samples.registry "0a" "0b" [Samples.x0b]) _ _ _ _ _ _) _);
    try reflexivity.
  repeat split; discriminate.
Defined.
End EngineFlow.

(** ** The allow-list, the classification of errors and the auth string *)

Module Edges.
Import Go Validate Observe.

Lemma isAllowedIn_app (l1 l2 : list string) (image : string) :
  isAllowedIn (l1 ++ l2) image = isAllowedIn l1 image || isAllowedIn l2 image.
Proof.
  induction l1 as [|a l1 IH]; [reflexivity|]. cbn.
  destruct (HasPrefix image a); [reflexivity | exact IH].
Qed.

(** A service configured with two lists of prefixes one after the other
    allows the images that a service with either list allows: adding
    prefixes never makes an allowed image validated again. *)
Theorem allow_list_union (cfg : NotaryConfig) (l1 l2 : list string) (image : string) :
  isImageAllowed
    (NewImageValidator {| NotaryConfig_ := cfg; AllowedRegistries := (l1 ++ l2)%list |}) image
  = isImageAllowed (NewImageValidator {| NotaryConfig_ := cfg; AllowedRegistries := l1 |}) image
    || isImageAllowed (NewImageValidator {| NotaryConfig_ := cfg; AllowedRegistries := l2 |}) image.
Proof. apply isAllowedIn_app. Qed.

(** An empty string among the configured prefixes allows every image:
    [Validate] then succeeds on any string without a call to the trust
    authority or the registry. *)
Theorem empty_prefix_allows_everything `{Library} (sc : ServiceConfig) (image : string)
    (imagePullCredentials : gmap string AuthConfig)
    {W : Type} (answer : forall c : Call, W -> Answer c * W) (w : W) :
  In "" (AllowedRegistries sc) ->
  (Eff.run answer (Validate (NewImageValidator sc) image imagePullCredentials) w).1 = None
  /\ Forall (fun c => is_network c = false)
       (calls_of (Eff.trace answer
                    (Validate (NewImageValidator sc) image imagePullCredentials) w)).
Proof.
  intros Hin.
  assert (Hallowed : isImageAllowed (NewImageValidator sc) image = true).
  { apply Engine.isAllowedIn_spec. exists "". split; [exact Hin|]. now destruct image. }
  unfold Validate. rewrite Hallowed. unfold_prog. cbn.
  destruct (answer (LogInfo _) w) as [[] w']. cbn.
  split; [reflexivity | repeat constructor].
Qed.

(** An error of the lookup that is classified as a validation failure
    stays one when it is wrapped with a message before it is
    classified. *)
Theorem classification_survives_wrapping (err : error) (msg : string) :
  code_of (parseNotaryErr err) = Some ValidationFailed ->
  parseNotaryErr (errors_Wrap err msg) = pkg_Err ValidationFailed (errors_Wrap err msg).
Proof.
  assert (Hwrap : forall phrase, Contains (Error err) phrase = true ->
                                 Contains (Error (errors_Wrap err msg)) phrase = true).
  { intros phrase Hc. apply GoFacts.Contains_spec in Hc as (before & after & E).
    apply GoFacts.Contains_spec. exists (msg ++ ": " ++ before), after.
    cbn [Error]. rewrite E. now rewrite !SplitFacts.str_app_assoc. }
  unfold parseNotaryErr.
  destruct (Contains (Error err) "does not have trust data for") eqn:E1.
  - intros _. now rewrite (Hwrap _ E1).
  - destruct (Contains (Error err) "No valid trust data for") eqn:E2; [|discriminate].
    intros _. rewrite (Hwrap _ E2).
    now destruct (Contains (Error (errors_Wrap err msg)) "does not have trust data for").
Qed.

(** The pieces on both sides of a separator add up. *)
Lemma split_length_app (c : ascii) (x y cur : string) :
  List.length (split_from (sep1 c) (x ++ String c y) 0 cur)
  = List.length (split_from (sep1 c) x 0 cur) + List.length (split_from (sep1 c) y 0 "").
Proof.
  revert cur; induction x as [|d x IH]; intros cur.
  - change ("" ++ String c y) with (String c y).
    rewrite SplitFacts.split_step, bool_decide_eq_true_2 by reflexivity. reflexivity.
  - rewrite SplitFacts.str_app_cons, !SplitFacts.split_step.
    destruct (bool_decide (c = d)); [cbn [List.length]; now rewrite IH | apply IH].
Qed.

Lemma split_length_pos (c : ascii) (s cur : string) :
  1 <= List.length (split_from (sep1 c) s 0 cur).
Proof.
  revert cur; induction s as [|d s IH]; intros cur; [reflexivity|].
  rewrite SplitFacts.split_step. destruct (bool_decide (c = d)); [cbn; lia | apply IH].
Qed.

(** An auth string whose decoded text holds two colons or more, as with
    a password that contains a colon, is refused with the validation
    error for the format. *)
Theorem password_with_colon_rejected `{Library} (credentials : AuthConfig)
    (user middle last : string) :
  Username credentials = "" \/ Password credentials = "" ->
  RegistryToken credentials = "" ->
  Auth credentials <> "" ->
  base64_DecodeString (Auth credentials) = Ok (user ++ ":" ++ middle ++ ":" ++ last) ->
  parseCredentials credentials
  = Err (pkg_Err ValidationFailed
           (errors_New "invalid auth format, expected username:password form")).
Proof.
  intros Hbasic Ht Ha Hd.
  rewrite (Credentials.auth_branch credentials Hbasic Ht Ha), Hd.
  assert (Hl : 3 <= List.length
                      (split_from (sep1 ":") (user ++ String ":" (middle ++ String ":" last))
                         0 "")).
  { rewrite !split_length_app.
    pose proof (split_length_pos ":"%char user "").
    pose proof (split_length_pos ":"%char middle "").
    pose proof (split_length_pos ":"%char last ""). lia. }
  unfold Split. change ":" with (sep1 ":"%char).
  change (user ++ sep1 ":" ++ middle ++ sep1 ":" ++ last)
    with (user ++ String ":" (middle ++ String ":" last)).
  destruct (split_from (sep1 ":") (user ++ String ":" (middle ++ String ":" last)) 0 "")
    as [|? [|? [|? ?]]]; try reflexivity.
  cbn [List.length] in Hl. lia.
Qed.


Lemma empty_prefix_allows_everything_witness :
  (Eff.run Samples.answer
     (Validate (H := Samples.library)
        (NewImageValidator
           {| NotaryConfig_ := {| Url := "https://notary.example" |};
              AllowedRegistries := ["docker.io/"; ""] |})
        "not a reference" ∅)
     Samples.locked).1 = None.
Proof.
  apply (empty_prefix_allows_everything (H := Samples.library)
           {| NotaryConfig_ := {| Url := "https://notary.example" |};
              AllowedRegistries := ["docker.io/"; ""] |}
           "not a reference" ∅ Samples.answer Samples.locked).
  right. left. reflexivity.
Defined.

Lemma classification_survives_wrapping_witness :
  parseNotaryErr (errors_Wrap Samples.noTrustData "lookup failed")
  = pkg_Err ValidationFailed (errors_Wrap Samples.noTrustData "lookup failed").
Proof.
  apply (classification_survives_wrapping Samples.noTrustData "lookup failed").
  reflexivity.
Defined.

Lemma password_with_colon_rejected_witness :
  parseCredentials (H := Samples.library) (Samples.authOnly "dTpwOnE=")
  = Err (pkg_Err ValidationFailed
           (errors_New "invalid auth format, expected username:password form")).
Proof.
  apply (password_with_colon_rejected (H := Samples.library)
           (Samples.authOnly "dTpwOnE=") "u" "p" "q").
  - left. reflexivity.
  - reflexivity.
  - simpl. discriminate.
  - reflexivity.
Defined.
End Edges.

(** ** More on the admission webhook *)

Module WebhookFlow.
Import Go Admission.

Section WithLibrary.
Context `{Library} `{Constants}.


Section WithWorld.
Context {W : Type} (answer : forall c : Call, W -> Answer c * W).

(** When the namespace of the pod cannot be fetched, the answer is
    status 500 with the error of the fetch and the validator is not
    called; when the validator fails, the answer is status 500 with its
    error and nothing is logged about a label. *)
Theorem failures_are_internal_errors (w : DefaultingWebHook) (req : Request) (world : W)
    (pod : Pod) (err : error) :
  Kind req = PodType ->
  Decode req = Ok pod ->
  ((answer (client_Get (Pod_Namespace pod)) world).1 = Err err ->
   (Eff.run answer (handle w req) world).1 = admission_Errored StatusInternalServerError err
   /\ map (@projT1 _ _) (Eff.trace answer (handle w req) world)
      = [client_Get (Pod_Namespace pod)])
  /\ (forall ns w1,
        answer (client_Get (Pod_Namespace pod)) world = (Ok ns, w1) ->
        (answer (ValidatePod pod ns) w1).1 = Err err ->
        (Eff.run answer (handle w req) world).1
        = admission_Errored StatusInternalServerError err
        /\ map (@projT1 _ _) (Eff.trace answer (handle w req) world)
           = [client_Get (Pod_Namespace pod); ValidatePod pod ns]).
Proof.
  intros Hkind Hdecode. unfold handle. rewrite Hkind, Hdecode. unfold_prog. cbn. split.
  - intros Hget. destruct (answer (client_Get _) world) as [got w1].
    cbn in Hget. subst got. split; reflexivity.
  - intros ns w1 Hget Hvalidate. rewrite Hget. cbn.
    destruct (answer (ValidatePod pod ns) w1) as [r w2]. cbn in Hvalidate. subst r.
    split; reflexivity.
Qed.

(** [handle] never turns a verdict into a denial: its response either
    allows the request or is an error with status 400 or 500.  In
    particular a pod found [Invalid] is allowed and labeled, not
    rejected. *)
Theorem handle_allows_or_errors (w : DefaultingWebHook) (req : Request) (world : W) :
  let resp := (Eff.run answer (handle w req) world).1 in
  Allowed resp = true
  \/ (Allowed resp = false
      /\ (Code resp = StatusBadRequest \/ Code resp = StatusInternalServerError)).
Proof.
  unfold handle, labelPod, PatchResponseFromRaw. unfold_prog. cbn.
  destruct (negb (String.eqb (Kind req) PodType)); cbn; [right; auto|].
  destruct (Decode req) as [pod|err]; cbn; [|right; auto].
  Flow.run_step answer. destruct x as [ns|err]; cbn; [|right; auto].
  Flow.run_step answer. destruct x as [result|err]; cbn; [|right; auto].
  destruct result; cbn; [left; auto|..];
    Flow.run_step answer; repeat Flow.run_step answer; auto.
Qed.

(** [labelPod] with a non-empty label changes the validation label and
    nothing else: the name, the namespace and the rest of the pod are
    kept, the validation label reads back as the label of the result, and
    every other label reads as before (as absent, when the pod had no
    label map). *)
Theorem labelPod_changes_one_label (result : ValidationResult) (pod : Pod) (world : W) :
  LabelForValidationResult result <> "" ->
  let labeled := (Eff.run answer (labelPod result pod) world).1 in
  Pod_Name labeled = Pod_Name pod
  /\ Pod_Namespace labeled = Pod_Namespace pod
  /\ Pod_Rest labeled = Pod_Rest pod
  /\ exists labels,
       Labels labeled = Some labels
       /\ labels !! PodValidationLabel = Some (LabelForValidationResult result)
       /\ forall key, key <> PodValidationLabel ->
            labels !! key = default ∅ (Labels pod) !! key.
Proof.
  intros Hlabel labeled. subst labeled.
  rewrite (Webhook.labelPod_run answer result pod world Hlabel). cbn.
  repeat split. eexists. split; [reflexivity|]. split.
  - apply lookup_insert_eq.
  - intros key Hkey. now apply lookup_insert_ne.
Qed.

(** Labeling twice is labeling once with the second result: the label of
    the first result is overwritten.  With the empty label, which is the
    label of [NoAction], the pod is returned as it is. *)
Theorem labelPod_last_wins (first second : ValidationResult) (pod : Pod)
    (world world' world'' : W) :
  (LabelForValidationResult second <> "" ->
   (Eff.run answer
      (labelPod second (Eff.run answer (labelPod first pod) world).1) world').1
   = (Eff.run answer (labelPod second pod) world'').1)
  /\ (LabelForValidationResult second = "" ->
      (Eff.run answer (labelPod second pod) world).1 = pod).
Proof.
  split.
  - intros Hsecond. rewrite !(Webhook.labelPod_run answer second _ _ Hsecond).
    destruct (String.eqb_spec (LabelForValidationResult first) "") as [E|Hfirst].
    + assert ((Eff.run answer (labelPod first pod) world).1 = pod) as ->; [|reflexivity].
      unfold labelPod. unfold_prog. cbn. destruct (answer (LogInfof _ _) world).
      now rewrite E.
    + rewrite (Webhook.labelPod_run answer first pod world Hfirst). cbn.
      now rewrite insert_insert_eq.
  - intros E. unfold labelPod. unfold_prog. cbn. destruct (answer (LogInfof _ _) world).
    now rewrite E.
Qed.

End WithWorld.
End WithLibrary.

Section Status.
Context `{Library} `{Constants}.

(** A run that ends under the clock returns what the run without the
    clock returns. *)
Lemma finish_run {W R : Type} (answer : forall c : Call, W -> option (Answer c * W * Z))
    (own : Z) (p : Eff.Prog Answer R) (world : W) (now : Z) (r : R) (t : Z) :
  Timed.finish answer own p world now = Some (r, t) ->
  (Eff.run (Untimed.untimed answer) p world).1 = r.
Proof.
  revert world now. induction p as [r'|c k IH]; intros world now; cbn.
  - intros E. now injection E as -> _.
  - unfold Untimed.untimed at 1.
    destruct (answer c world) as [[[x w'] d]|]; [|discriminate]. apply IH.
Qed.

(** [handle] itself never answers with status 408. *)
Lemma handle_status_not_timeout {W : Type} (answer : forall c : Call, W -> Answer c * W)
    (w : DefaultingWebHook) (req : Request) (world : W) :
  Code (Eff.run answer (handle w req) world).1 <> StatusRequestTimeout.
Proof.
  unfold handle, labelPod, PatchResponseFromRaw. unfold_prog. cbn.
  destruct (negb (String.eqb (Kind req) PodType)); cbn; [discriminate|].
  destruct (Decode req) as [pod|err]; cbn; [|discriminate].
  Flow.run_step answer. destruct x as [ns|err]; cbn; [|discriminate].
  Flow.run_step answer. destruct x as [result|err]; cbn; [|discriminate].
  destruct result; cbn; [discriminate|..];
    Flow.run_step answer; repeat Flow.run_step answer; discriminate.
Qed.


End Status.



Lemma failures_are_internal_errors_witness :
  (Eff.run Samples.cluster_answer_now
     (handle (H := Samples.admission_library) (H0 := Samples.constants)
        Samples.webhook Samples.podRequest)
     {| Samples.verdict := Err (errors_New "policy unavailable");
        Samples.latency := Some 0%Z |}).1
  = admission_Errored StatusInternalServerError (errors_New "policy unavailable").
Proof.
  refine (proj1 (proj2 (failures_are_internal_errors (H := Samples.admission_library)
            (H0 := Samples.constants) Samples.cluster_answer_now
            Samples.webhook Samples.podRequest
            {| Samples.verdict := Err (errors_New "policy unavailable");
               Samples.latency := Some 0%Z |}
            _ (errors_New "policy unavailable") eq_refl eq_refl)
            Samples.defaultNamespace _ eq_refl eq_refl)).
Defined.

Lemma labelPod_changes_one_label_witness :
  exists labels,
    Labels (Eff.run Samples.cluster_answer_now
              (labelPod (H0 := Samples.constants) Invalid Samples.labeledPod)
              {| Samples.verdict := Ok Invalid; Samples.latency := Some 0%Z |}).1
    = Some labels
    /\ labels !! "pods.warden.kyma-project.io/validate" = Some "reject"
    /\ labels !! "app" = Some "web".
Proof.
  destruct (labelPod_changes_one_label (H0 := Samples.constants)
              Samples.cluster_answer_now Invalid Samples.labeledPod
              {| Samples.verdict := Ok Invalid; Samples.latency := Some 0%Z |})
    as (_ & _ & _ & labels & Hl & Hv & Hother).
  - discriminate.
  - exists labels. split; [exact Hl|]. split; [exact Hv|].
    rewrite (Hother "app"); [reflexivity | discriminate].
Defined.

Lemma labelPod_last_wins_witness :
  (Eff.run Samples.cluster_answer_now
     (labelPod (H0 := Samples.constants) Valid
        (Eff.run Samples.cluster_answer_now
           (labelPod (H0 := Samples.constants) Invalid Samples.labeledPod)
           {| Samples.verdict := Ok Invalid; Samples.latency := Some 0%Z |}).1)
     {| Samples.verdict := Ok Valid; Samples.latency := Some 0%Z |}).1
  = (Eff.run Samples.cluster_answer_now
       (labelPod (H0 := Samples.constants) Valid Samples.labeledPod)
       {| Samples.verdict := Ok Valid; Samples.latency := Some 0%Z |}).1.
Proof.
  apply (proj1 (labelPod_last_wins (H0 := Samples.constants) Samples.cluster_answer_now
                  Invalid Valid Samples.labeledPod _ _ _)).
  discriminate.
Defined.
End WebhookFlow.
